(** * Live voice session of the aura front-end: codec, scheduler and teardown

    Shallow embedding of [LiveView] (the second document of
    [src/components/VideoView.tsx]) and the properties of its PCM codec,
    its playback scheduling, its transcript aggregation and its teardown.

    Numbers.  A JavaScript number is a binary64 float.  Two idealisations are
    made, both spelled out where they are used:
    - audio samples are [Q].  A microphone sample is a Float32 and the code
      multiplies it by [32768 = 2^15]; that product is exact in binary64, and
      so is the quotient of a 16-bit integer by [2^15], hence the rational
      product and quotient are the values the code computes;
    - times (the audio clock, start times, durations) are [Q]: sums of times
      are the exact sums, rounding of binary64 additions is not modelled. *)

From Stdlib Require Import ZArith NArith QArith Qround Qminmax Qabs.
From Stdlib Require Import List String Ascii Bool Lia Lqa.
Import ListNotations.

Local Open Scope Z_scope.

(** ** PCM codec *)

Module PCM.

(** *** Outbound: the quantisation loop of [scriptProcessor.onaudioprocess] *)

(** The integer part of a number, toward zero (the first step of the
    conversion every integer typed array applies to a stored number). *)
Definition truncate (x : Q) : Z := Z.quot (Qnum x) (Z.pos (Qden x)).

(** ECMAScript [ToInt16], the conversion of an [Int16Array] store:
    truncate, reduce modulo [2^16], and read the result as two's
    complement. *)
Definition ToInt16 (x : Q) : Z :=
  let int16bit := truncate x mod 65536 in
  if 32768 <=? int16bit then int16bit - 65536 else int16bit.

(** [int16[i] = inputData[i] * 32768] for every [i]. *)
Definition quantize (inputData : list Q) : list Z :=
  map (fun x => ToInt16 (x * 32768)%Q) inputData.

(** A byte is a [Z] in [0, 256). *)
Definition byte_ok (b : Z) : Prop := 0 <= b < 256.

(** The two bytes of one 16-bit element, low byte first: the view
    [new Uint8Array(int16.buffer)] on a little-endian host (every browser
    platform is one). *)
Definition int16_bytes (n : Z) : list Z := [n mod 256; (n / 256) mod 256].

(** [new Uint8Array(int16.buffer)]. *)
Definition Uint8Array_of_Int16Array (int16 : list Z) : list Z :=
  flat_map int16_bytes int16.

(** *** The base64 text transform of [utils/audioUtils.ts] *)

Definition alphabet : list ascii :=
  list_ascii_of_string
    "ABCDEFGHIJKLMNOPQRSTUVWXYZabcdefghijklmnopqrstuvwxyz0123456789+/".

Definition sextet_char (i : Z) : ascii := nth (Z.to_nat i) alphabet "="%char.

(** Modelled from the spec: [encode] of [utils/audioUtils.ts] is not part
    of the sources at hand; the spec calls it the reversible byte-to-text
    transform (base64).  Standard base64 with [=] padding. *)
Fixpoint encode (bytes : list Z) : string :=
  match bytes with
  | [] => EmptyString
  | [a] =>
      String (sextet_char (a / 4))
        (String (sextet_char ((a mod 4) * 16)) "==")
  | [a; b] =>
      String (sextet_char (a / 4))
        (String (sextet_char ((a mod 4) * 16 + b / 16))
           (String (sextet_char ((b mod 16) * 4)) "="))
  | a :: b :: c :: rest =>
      String (sextet_char (a / 4))
        (String (sextet_char ((a mod 4) * 16 + b / 16))
           (String (sextet_char ((b mod 16) * 4 + c / 64))
              (String (sextet_char (c mod 64)) (encode rest))))
  end.

(** The value of a base64 digit, [None] for any other character. *)
Definition char_sextet (c : ascii) : option Z :=
  let n := Z.of_N (N_of_ascii c) in
  if (65 <=? n) && (n <=? 90) then Some (n - 65)
  else if (97 <=? n) && (n <=? 122) then Some (n - 71)
  else if (48 <=? n) && (n <=? 57) then Some (n + 4)
  else if n =? 43 then Some 62
  else if n =? 47 then Some 63
  else None.

Definition is_pad (c : ascii) : bool := (Z.of_N (N_of_ascii c) =? 61).

(** Modelled from the spec: [decode] of [utils/audioUtils.ts] is not part
    of the sources at hand; the spec says it reverses the text transform
    only, yielding the raw bytes.  [None] stands for the exception raised
    on text that is not base64. *)
Fixpoint decode (base64 : string) : option (list Z) :=
  match base64 with
  | EmptyString => Some []
  | String c1 (String c2 (String c3 (String c4 rest))) =>
      match char_sextet c1, char_sextet c2 with
      | Some s1, Some s2 =>
          let b1 := s1 * 4 + s2 / 16 in
          match char_sextet c3, char_sextet c4 with
          | Some s3, Some s4 =>
              match decode rest with
              | Some bytes =>
                  Some (b1 :: (s2 mod 16) * 16 + s3 / 4
                           :: (s3 mod 4) * 64 + s4 :: bytes)
              | None => None
              end
          | Some s3, None =>
              match rest with
              | EmptyString =>
                  if is_pad c4 && (s3 mod 4 =? 0)
                  then Some [b1; (s2 mod 16) * 16 + s3 / 4]
                  else None
              | _ => None
              end
          | None, _ =>
              match rest with
              | EmptyString =>
                  if is_pad c3 && is_pad c4 && (s2 mod 16 =? 0)
                  then Some [b1]
                  else None
              | _ => None
              end
          end
      | _, _ => None
      end
  | _ => None
  end.

(** *** Inbound: reconstruction of playable audio *)

(** What the player needs of an [AudioBuffer]: one channel of samples and
    the sample rate. *)
Record AudioBuffer := {
  channelData : list Q;
  sampleRate : positive
}.

(** [AudioBuffer.duration], in seconds: frames over sample rate. *)
Definition duration (buffer : AudioBuffer) : Q :=
  Z.of_nat (List.length (channelData buffer)) # sampleRate buffer.

(** A 16-bit little-endian two's complement element read from two bytes. *)
Definition int16_of_bytes (lo hi : Z) : Z :=
  let u := lo + 256 * hi in
  if 32768 <=? u then u - 65536 else u.

Fixpoint Int16Array_of_bytes (data : list Z) : option (list Z) :=
  match data with
  | [] => Some []
  | lo :: hi :: rest =>
      match Int16Array_of_bytes rest with
      | Some int16 => Some (int16_of_bytes lo hi :: int16)
      | None => None
      end
  | [_] => None
  end.

(** Modelled from the spec: [decodeAudioData] of [utils/audioUtils.ts] is
    not part of the sources at hand.  The spec: it reinterprets the bytes
    as 16-bit signed samples, normalises each to [[-1, 1]] (the inverse of
    the outbound scaling by [32768]), and fails with [MalformedAudioData]
    when the byte length is odd ([None]).  One channel, as at the only
    call site. *)
Definition decodeAudioData (data : list Z) (rate : positive)
  : option AudioBuffer :=
  match Int16Array_of_bytes data with
  | Some int16 =>
      Some {| channelData := map (fun n => inject_Z n / 32768)%Q int16;
              sampleRate := rate |}
  | None => None
  end.

(** *** The codec in the words of the spec *)

Definition int16_ok (n : Z) : Prop := -32768 <= n <= 32767.

(** The nearest integer, ties upward. *)
Definition spec_round (x : Q) : Z := Qfloor (x + (1 # 2))%Q.

Definition clamp16 (n : Z) : Z := Z.max (-32768) (Z.min 32767 n).

(** [round(sample * 32768)], clamped to the 16-bit range. *)
Definition spec_quantize (x : Q) : Z := clamp16 (spec_round (x * 32768)%Q).

End PCM.


(** ** The live session component *)

Module Live.

Import PCM.

(** *** Inbound messages ([LiveServerMessage] of the SDK, the fields read) *)

Module Msg.
(** [Blob]: both fields are optional in the SDK's type. *)
Record Blob := { data : option string; mimeType : option string }.
Record Part := { inlineData : option Blob }.
Record Content := { parts : option (list Part) }.
Record Transcription := { text : option string }.
Record LiveServerContent := {
  modelTurn : option Content;
  interrupted : bool;
  inputTranscription : option Transcription;
  outputTranscription : option Transcription;
  turnComplete : bool
}.
Record LiveServerMessage := { serverContent : option LiveServerContent }.
End Msg.
Import Msg.

(** *** State *)

Inductive Role := user_role | model_role.

(** An element of the [transcriptions] React state. *)
Record Entry := { role : Role; text : string }.

(** The object held by [transcriptionRef]. *)
Record Buffers := { user : string; model : string }.

(** Calls into the host (Web Audio, the SDK session, the console), in the
    order they are made.  Host objects are named by the number they got
    when they were created. *)
Inductive HostCall :=
| session_close (session : nat)
| audioContext_close (context : nat)
| source_start (source : nat) (when : Q) (buffer : AudioBuffer)
| source_stop (source : nat)
| sendRealtimeInput (session : nat) (media : Blob)
| console_error
| alert.

Record World := {
  (* useState *)
  isActive : bool;
  isConnecting : bool;
  transcriptions : list Entry;
  (* useRef *)
  sessionRef : option nat;
  audioContextRef : option nat;
  nextStartTimeRef : Q;
  sourcesRef : list nat;          (* a Set: insertion order, no duplicate *)
  transcriptionRef : Buffers;
  (* host side *)
  microphones : list nat;         (* MediaStreams whose tracks are live *)
  processors : list nat;          (* connected ScriptProcessorNodes, each
                                     with the session its handler sends to *)
  objects : nat;                  (* host objects created so far *)
  calls : list HostCall
}.

(** The component as mounted: the initial values of its hooks. *)
Definition mounted : World := {|
  isActive := false;
  isConnecting := false;
  transcriptions := [];
  sessionRef := None;
  audioContextRef := None;
  nextStartTimeRef := 0%Q;
  sourcesRef := [];
  transcriptionRef := {| user := ""; model := "" |};
  microphones := [];
  processors := [];
  objects := 0%nat;
  calls := []
|}.

Definition set_isActive (v : bool) (w : World) : World :=
  {| isActive := v; isConnecting := isConnecting w;
     transcriptions := transcriptions w; sessionRef := sessionRef w;
     audioContextRef := audioContextRef w;
     nextStartTimeRef := nextStartTimeRef w; sourcesRef := sourcesRef w;
     transcriptionRef := transcriptionRef w; microphones := microphones w;
     processors := processors w; objects := objects w; calls := calls w |}.

Definition set_isConnecting (v : bool) (w : World) : World :=
  {| isActive := isActive w; isConnecting := v;
     transcriptions := transcriptions w; sessionRef := sessionRef w;
     audioContextRef := audioContextRef w;
     nextStartTimeRef := nextStartTimeRef w; sourcesRef := sourcesRef w;
     transcriptionRef := transcriptionRef w; microphones := microphones w;
     processors := processors w; objects := objects w; calls := calls w |}.

Definition set_transcriptions (v : list Entry) (w : World) : World :=
  {| isActive := isActive w; isConnecting := isConnecting w;
     transcriptions := v; sessionRef := sessionRef w;
     audioContextRef := audioContextRef w;
     nextStartTimeRef := nextStartTimeRef w; sourcesRef := sourcesRef w;
     transcriptionRef := transcriptionRef w; microphones := microphones w;
     processors := processors w; objects := objects w; calls := calls w |}.

Definition set_sessionRef (v : option nat) (w : World) : World :=
  {| isActive := isActive w; isConnecting := isConnecting w;
     transcriptions := transcriptions w; sessionRef := v;
     audioContextRef := audioContextRef w;
     nextStartTimeRef := nextStartTimeRef w; sourcesRef := sourcesRef w;
     transcriptionRef := transcriptionRef w; microphones := microphones w;
     processors := processors w; objects := objects w; calls := calls w |}.

Definition set_audioContextRef (v : option nat) (w : World) : World :=
  {| isActive := isActive w; isConnecting := isConnecting w;
     transcriptions := transcriptions w; sessionRef := sessionRef w;
     audioContextRef := v;
     nextStartTimeRef := nextStartTimeRef w; sourcesRef := sourcesRef w;
     transcriptionRef := transcriptionRef w; microphones := microphones w;
     processors := processors w; objects := objects w; calls := calls w |}.

Definition set_nextStartTimeRef (v : Q) (w : World) : World :=
  {| isActive := isActive w; isConnecting := isConnecting w;
     transcriptions := transcriptions w; sessionRef := sessionRef w;
     audioContextRef := audioContextRef w;
     nextStartTimeRef := v; sourcesRef := sourcesRef w;
     transcriptionRef := transcriptionRef w; microphones := microphones w;
     processors := processors w; objects := objects w; calls := calls w |}.

Definition set_sourcesRef (v : list nat) (w : World) : World :=
  {| isActive := isActive w; isConnecting := isConnecting w;
     transcriptions := transcriptions w; sessionRef := sessionRef w;
     audioContextRef := audioContextRef w;
     nextStartTimeRef := nextStartTimeRef w; sourcesRef := v;
     transcriptionRef := transcriptionRef w; microphones := microphones w;
     processors := processors w; objects := objects w; calls := calls w |}.

Definition set_transcriptionRef (v : Buffers) (w : World) : World :=
  {| isActive := isActive w; isConnecting := isConnecting w;
     transcriptions := transcriptions w; sessionRef := sessionRef w;
     audioContextRef := audioContextRef w;
     nextStartTimeRef := nextStartTimeRef w; sourcesRef := sourcesRef w;
     transcriptionRef := v; microphones := microphones w;
     processors := processors w; objects := objects w; calls := calls w |}.

Definition set_microphones (v : list nat) (w : World) : World :=
  {| isActive := isActive w; isConnecting := isConnecting w;
     transcriptions := transcriptions w; sessionRef := sessionRef w;
     audioContextRef := audioContextRef w;
     nextStartTimeRef := nextStartTimeRef w; sourcesRef := sourcesRef w;
     transcriptionRef := transcriptionRef w; microphones := v;
     processors := processors w; objects := objects w; calls := calls w |}.

Definition set_processors (v : list nat) (w : World) : World :=
  {| isActive := isActive w; isConnecting := isConnecting w;
     transcriptions := transcriptions w; sessionRef := sessionRef w;
     audioContextRef := audioContextRef w;
     nextStartTimeRef := nextStartTimeRef w; sourcesRef := sourcesRef w;
     transcriptionRef := transcriptionRef w; microphones := microphones w;
     processors := v; objects := objects w; calls := calls w |}.

Definition set_objects (v : nat) (w : World) : World :=
  {| isActive := isActive w; isConnecting := isConnecting w;
     transcriptions := transcriptions w; sessionRef := sessionRef w;
     audioContextRef := audioContextRef w;
     nextStartTimeRef := nextStartTimeRef w; sourcesRef := sourcesRef w;
     transcriptionRef := transcriptionRef w; microphones := microphones w;
     processors := processors w; objects := v; calls := calls w |}.

Definition set_calls (v : list HostCall) (w : World) : World :=
  {| isActive := isActive w; isConnecting := isConnecting w;
     transcriptions := transcriptions w; sessionRef := sessionRef w;
     audioContextRef := audioContextRef w;
     nextStartTimeRef := nextStartTimeRef w; sourcesRef := sourcesRef w;
     transcriptionRef := transcriptionRef w; microphones := microphones w;
     processors := processors w; objects := objects w; calls := v |}.

(** *** Handlers run in a state monad with exceptions

    A handler either completes or throws; what it wrote before the throw
    stays written. *)

Inductive Completion (A : Type) :=
| Normal (a : A) (w : World)
| Throw (w : World).
Arguments Normal {A} a w.
Arguments Throw {A} w.

Definition M (A : Type) : Type := World -> Completion A.

Definition ret {A} (a : A) : M A := fun w => Normal a w.

Definition bind {A B} (m : M A) (k : A -> M B) : M B :=
  fun w => match m w with
           | Normal a w' => k a w'
           | Throw w' => Throw w'
           end.

Definition throw {A} : M A := fun w => Throw w.

Definition read {A} (field : World -> A) : M A := fun w => Normal (field w) w.

Definition write (update : World -> World) : M unit :=
  fun w => Normal tt (update w).

Definition when (b : bool) (m : M unit) : M unit := if b then m else ret tt.

(** The world a handler leaves behind, however it completed. *)
Definition world_of {A} (c : Completion A) : World :=
  match c with Normal _ w => w | Throw w => w end.

Notation "x <- m ;; k" := (bind m (fun x => k))
  (at level 61, m at next level, right associativity).
Notation "m ;; k" := (bind m (fun _ => k))
  (at level 61, right associativity).

(** A call into the host, appended to the record of calls. *)
Definition call (c : HostCall) : M unit :=
  write (fun w => set_calls (calls w ++ [c]) w).

(** A new host object; its number is returned. *)
Definition create : M nat :=
  fun w => Normal (objects w) (set_objects (S (objects w)) w).

Fixpoint forEach {A} (l : list A) (f : A -> M unit) : M unit :=
  match l with
  | [] => ret tt
  | x :: l' => f x ;; forEach l' f
  end.

(** [Set.prototype.add] and [Set.prototype.delete]. *)
Definition Set_add (x : nat) (s : list nat) : list nat :=
  if existsb (Nat.eqb x) s then s else s ++ [x].

Definition Set_delete (x : nat) (s : list nat) : list nat :=
  filter (fun y => negb (Nat.eqb x y)) s.

(** A string in a condition: the empty string is falsy. *)
Definition truthy (s : string) : bool :=
  match s with EmptyString => false | String _ _ => true end.

(** *** [stopSession] *)

Definition stopSession : M unit :=
  session <- read sessionRef ;;
  match session with
  | Some s => call (session_close s) ;; write (set_sessionRef None)
  | None => ret tt
  end ;;
  context <- read audioContextRef ;;
  match context with
  | Some c => call (audioContext_close c) ;; write (set_audioContextRef None)
  | None => ret tt
  end ;;
  write (set_isActive false) ;;
  write (set_nextStartTimeRef 0%Q).

(** *** [startSession], with the outcome of the two requests it awaits

    The awaits of [startSession] are taken in one step: the button that
    calls it is disabled while [isConnecting] holds. *)

Definition catch_start : M unit :=
  call console_error ;;
  write (set_isConnecting false) ;;
  call alert.

Definition startSession (microphone_granted connected : bool) : M unit :=
  write (set_isConnecting true) ;;
  inputAudioContext <- create ;;
  outputAudioContext <- create ;;
  write (set_audioContextRef (Some outputAudioContext)) ;;
  if microphone_granted then
    stream <- create ;;
    write (fun w => set_microphones (microphones w ++ [stream]) w) ;;
    if connected then
      session <- create ;;
      write (set_sessionRef (Some session))
    else catch_start
  else catch_start.

(** *** The callbacks given to [ai.live.connect] *)

(** [callbacks.onopen]: the capture graph (media stream source, script
    processor, destination) of the session is connected. *)
Definition onopen (session : nat) : M unit :=
  write (set_isConnecting false) ;;
  write (set_isActive true) ;;
  write (fun w => set_processors (processors w ++ [session]) w).

(** The blob built by [scriptProcessor.onaudioprocess]. *)
Definition pcmBlob (inputData : list Q) : Blob :=
  {| data := Some (encode (Uint8Array_of_Int16Array (quantize inputData)));
     mimeType := Some "audio/pcm;rate=16000"%string |}.

(** [scriptProcessor.onaudioprocess]: the frame goes to the session of the
    closure ([sessionPromise], resolved since the channel opened), not to
    [sessionRef]. *)
Definition onaudioprocess (session : nat) (inputData : list Q) : M unit :=
  call (sendRealtimeInput session (pcmBlob inputData)).

(** [message.serverContent?.modelTurn?.parts[0]?.inlineData?.data]; a
    model turn without [parts] makes the index expression throw. *)
Definition base64Audio (message : LiveServerMessage) : M (option string) :=
  match serverContent message with
  | None => ret None
  | Some content =>
      match modelTurn content with
      | None => ret None
      | Some turn =>
          match parts turn with
          | None => throw
          | Some [] => ret None
          | Some (part :: _) =>
              ret (match inlineData part with
                   | Some blob => data blob
                   | None => None
                   end)
          end
      end
  end.

(** [message.serverContent?.f] for a flag and for an object. *)
Definition flag (f : LiveServerContent -> bool)
                (message : LiveServerMessage) : bool :=
  match serverContent message with
  | Some content => f content
  | None => false
  end.

Definition field {A} (f : LiveServerContent -> option A)
                 (message : LiveServerMessage) : option A :=
  match serverContent message with
  | Some content => f content
  | None => None
  end.

(** The text appended by [+=]: a missing [text] is appended as the string
    of [undefined]. *)
Definition appended (t : Transcription) : string :=
  match Msg.text t with
  | Some s => s
  | None => "undefined"%string
  end.

Section Handlers.

(** [decodeAudioData(decode(base64Audio), outputAudioContext, 24000, 1)]
    of [utils/audioUtils.ts], which is not part of the sources at hand:
    the buffer, or [None] when one of the two calls throws.  The awaited
    promise is taken to settle at once, so that a message is handled to
    its end before the next event. *)
Variable decodeAudio : string -> option AudioBuffer.

(** The audio branch of [onmessage]. *)
Definition schedule (currentTime : Q) (base64 : string) : M unit :=
  cursor <- read nextStartTimeRef ;;
  write (set_nextStartTimeRef (Qmax cursor currentTime)) ;;
  audioBuffer <- match decodeAudio base64 with
                 | Some buffer => ret buffer
                 | None => throw
                 end ;;
  source <- create ;;
  startTime <- read nextStartTimeRef ;;
  call (source_start source startTime audioBuffer) ;;
  write (fun w =>
    set_nextStartTimeRef (nextStartTimeRef w + duration audioBuffer)%Q w) ;;
  write (fun w => set_sourcesRef (Set_add source (sourcesRef w)) w).

(** The [interrupted] branch of [onmessage]. *)
Definition interrupt : M unit :=
  sources <- read sourcesRef ;;
  forEach sources (fun s => call (source_stop s)) ;;
  write (set_sourcesRef []) ;;
  write (set_nextStartTimeRef 0%Q).

Definition append_user (t : Transcription) : M unit :=
  write (fun w =>
    set_transcriptionRef
      {| user := user (transcriptionRef w) ++ appended t;
         model := model (transcriptionRef w) |} w).

Definition append_model (t : Transcription) : M unit :=
  write (fun w =>
    set_transcriptionRef
      {| user := user (transcriptionRef w);
         model := model (transcriptionRef w) ++ appended t |} w).

(** The [turnComplete] branch of [onmessage]. *)
Definition flush : M unit :=
  u <- read (fun w => user (transcriptionRef w)) ;;
  m <- read (fun w => model (transcriptionRef w)) ;;
  when (truthy u || truthy m)
    (write (fun w =>
       set_transcriptions
         (transcriptions w ++ [ {| role := user_role; text := u |};
                                {| role := model_role; text := m |} ]) w)) ;;
  write (set_transcriptionRef {| user := ""; model := "" |}).

(** [callbacks.onmessage]; [currentTime] is
    [outputAudioContext.currentTime] as the handler reads it. *)
Definition onmessage (currentTime : Q) (message : LiveServerMessage)
  : M unit :=
  audio <- base64Audio message ;;
  match audio with
  | Some base64 => when (truthy base64) (schedule currentTime base64)
  | None => ret tt
  end ;;
  when (flag interrupted message) interrupt ;;
  match field inputTranscription message with
  | Some t => append_user t
  | None => ret tt
  end ;;
  match field outputTranscription message with
  | Some t => append_model t
  | None => ret tt
  end ;;
  when (flag turnComplete message) flush.

(** [source.onended]. *)
Definition onended (source : nat) : M unit :=
  write (fun w => set_sourcesRef (Set_delete source (sourcesRef w)) w).

(** [callbacks.onerror] and [callbacks.onclose]. *)
Definition onerror : M unit := call console_error.

Definition onclose : M unit := stopSession.

(** *** Events, in the order the host delivers them *)

Inductive Event :=
| start_click (microphone_granted connected : bool)
| stop_click
| open_event (session : nat)
| message_event (currentTime : Q) (message : LiveServerMessage)
| audioprocess_event (processor : nat) (inputData : list Q)
| ended_event (source : nat)
| error_event
| close_event.

Definition handler (e : Event) : M unit :=
  match e with
  | start_click microphone_granted connected =>
      startSession microphone_granted connected
  | stop_click => stopSession
  | open_event session => onopen session
  | message_event currentTime message => onmessage currentTime message
  | audioprocess_event processor inputData =>
      (* only a connected processor fires *)
      procs <- read processors ;;
      match nth_error procs processor with
      | Some session => onaudioprocess session inputData
      | None => ret tt
      end
  | ended_event source => onended source
  | error_event => onerror
  | close_event => onclose
  end.

(** An exception in a handler is reported by the host; the next event
    finds the world as the handler left it. *)
Definition step (w : World) (e : Event) : World := world_of (handler e w).

Definition run (events : list Event) (w : World) : World :=
  fold_left step events w.

End Handlers.

(** The decoder of [utils/audioUtils.ts] as modelled from the spec, at the
    arguments of the call site. *)
Definition audioUtils_decode (base64 : string) : option AudioBuffer :=
  match decode base64 with
  | Some bytes => decodeAudioData bytes 24000
  | None => None
  end.

(** *** Readings of a world *)

(** The start times given to [source.start], oldest first. *)
Fixpoint startTimes (cs : list HostCall) : list Q :=
  match cs with
  | [] => []
  | source_start _ t _ :: cs' => t :: startTimes cs'
  | _ :: cs' => startTimes cs'
  end.

(** The frames handed to the remote channel, oldest first. *)
Fixpoint sent (cs : list HostCall) : list Blob :=
  match cs with
  | [] => []
  | sendRealtimeInput _ media :: cs' => media :: sent cs'
  | _ :: cs' => sent cs'
  end.

(** What [stopSession] leaves of the component: no channel in [sessionRef],
    no output context in [audioContextRef], not active.  It says nothing of
    the capture side: the microphone streams and the connected processors
    are read separately wherever they matter. *)
Definition Idle (w : World) : Prop :=
  sessionRef w = None /\ audioContextRef w = None /\ isActive w = false.

(** *** Messages of one kind *)

Definition content_only (content : LiveServerContent) : LiveServerMessage :=
  {| serverContent := Some content |}.

(** An audio chunk: one part with inline data. *)
Definition audio_message (base64 : string) : LiveServerMessage :=
  content_only
    {| modelTurn :=
         Some {| parts :=
                   Some [ {| inlineData :=
                               Some {| data := Some base64;
                                       mimeType := None |} |} ] |};
       interrupted := false;
       inputTranscription := None;
       outputTranscription := None;
       turnComplete := false |}.

Definition interruption_message : LiveServerMessage :=
  content_only
    {| modelTurn := None; interrupted := true;
       inputTranscription := None; outputTranscription := None;
       turnComplete := false |}.

Definition turn_complete_message : LiveServerMessage :=
  content_only
    {| modelTurn := None; interrupted := false;
       inputTranscription := None; outputTranscription := None;
       turnComplete := true |}.

Definition user_fragment (fragment : string) : LiveServerMessage :=
  content_only
    {| modelTurn := None; interrupted := false;
       inputTranscription := Some {| Msg.text := Some fragment |};
       outputTranscription := None;
       turnComplete := false |}.

Definition model_fragment (fragment : string) : LiveServerMessage :=
  content_only
    {| modelTurn := None; interrupted := false;
       inputTranscription := None;
       outputTranscription := Some {| Msg.text := Some fragment |};
       turnComplete := false |}.

(** The pair of entries that one completed turn adds to the history. *)
Definition TranscriptTurn (u m : string) : list Entry :=
  [ {| role := user_role; text := u |};
    {| role := model_role; text := m |} ].

Definition no_buffers : Buffers := {| user := ""; model := "" |}.

(** The host calls that close what the two refs hold. *)
Definition closes (w : World) : list HostCall :=
  match sessionRef w with Some s => [session_close s] | None => [] end ++
  match audioContextRef w with
  | Some c => [audioContext_close c]
  | None => []
  end.

(** The end state the spec asks of a teardown: capture stopped, nothing
    scheduled, channel released, cursor and both buffers reset. *)
Definition torn_down (w : World) : Prop :=
  processors w = [] /\ sourcesRef w = [] /\ sessionRef w = None /\
  nextStartTimeRef w == 0 /\ transcriptionRef w = no_buffers.

(** *** The scheduler in the words of the spec *)

(** An audio chunk as it arrives: the clock reading when its message is
    handled, the payload, and the buffer the payload decodes to. *)
Record Arrival := {
  clockNow : Q;
  payload : string;
  frame : AudioBuffer
}.

Definition arrivals (frames : list Arrival) : list Event :=
  map (fun a => message_event (clockNow a) (audio_message (payload a)))
      frames.

(** [startTime = max(cursor, clockNow())], then
    [cursor = startTime + frame.duration], frame after frame. *)
Fixpoint spec_startTimes (cursor : Q) (frames : list Arrival) : list Q :=
  match frames with
  | [] => []
  | a :: rest =>
      let startTime := Qmax cursor (clockNow a) in
      startTime :: spec_startTimes (startTime + duration (frame a))%Q rest
  end.

Fixpoint spec_cursor (cursor : Q) (frames : list Arrival) : Q :=
  match frames with
  | [] => cursor
  | a :: rest =>
      spec_cursor (Qmax cursor (clockNow a) + duration (frame a))%Q rest
  end.


(** Frames played back to back from [t]: each starts where the previous
    one ends. *)
Fixpoint gapless (t : Q) (frames : list Arrival) : list Q :=
  match frames with
  | [] => []
  | a :: rest => t :: gapless (t + duration (frame a))%Q rest
  end.

(** Every chunk is handled no later than the end [t] of what is scheduled
    before it. *)
Fixpoint on_time (t : Q) (frames : list Arrival) : Prop :=
  match frames with
  | [] => True
  | a :: rest =>
      (clockNow a <= t)%Q /\ on_time (t + duration (frame a))%Q rest
  end.

(** A chunk of silence: what a capture of [samples] zero samples encodes
    to, arriving at [now], and the buffer it decodes to. *)
Definition silence (samples : nat) : string :=
  encode (Uint8Array_of_Int16Array (quantize (repeat 0%Q samples))).

Definition silent_arrival (now : Q) (samples : nat) : Arrival :=
  {| clockNow := now;
     payload := silence samples;
     frame := {| channelData := repeat (0 # 32768)%Q samples;
                 sampleRate := 24000 |} |}.

(** *** Relations that handlers preserve *)

(** A handler respects [R] when every world is [R]-related to the world
    the handler leaves, however it completes. *)
Definition respects {A} (R : World -> World -> Prop) (m : M A) : Prop :=
  forall w, R w (world_of (m w)).



(** Captured samples sent out, received back and decoded: the samples of
    the buffer that [audioUtils_decode] makes of the data of [pcmBlob]. *)
Definition round_trip (inputData : list Q) : option (list Q) :=
  match data (pcmBlob inputData) with
  | Some base64 => option_map channelData (audioUtils_decode base64)
  | None => None
  end.

(** *** Further readings and runs of events *)

(** A transcript fragment of one speaker. *)
Definition fragment (speaker : Role) (s : string) : LiveServerMessage :=
  match speaker with
  | user_role => user_fragment s
  | model_role => model_fragment s
  end.

(** The fragments of a conversation, each with the clock reading of its
    message, as events. *)
Definition said (fragments : list (Q * (Role * string))) : list Event :=
  map (fun f => message_event (fst f) (fragment (fst (snd f)) (snd (snd f))))
      fragments.

Definition same_role (a b : Role) : bool :=
  match a, b with
  | user_role, user_role | model_role, model_role => true
  | _, _ => false
  end.

(** What one speaker said, in order. *)
Fixpoint spoken (speaker : Role) (fragments : list (Q * (Role * string)))
  : string :=
  match fragments with
  | [] => EmptyString
  | f :: rest =>
      if same_role speaker (fst (snd f))
      then snd (snd f) ++ spoken speaker rest
      else spoken speaker rest
  end.

(** The frames one connected processor captures, as events. *)
Definition captured (processor : nat) (frames : list (list Q)) : list Event :=
  map (audioprocess_event processor) frames.

(** The sources given to [source.start], oldest first. *)
Fixpoint started (cs : list HostCall) : list nat :=
  match cs with
  | [] => []
  | source_start source _ _ :: cs' => source :: started cs'
  | _ :: cs' => started cs'
  end.

(** The sources given to [source.stop], oldest first. *)
Fixpoint stopped (cs : list HostCall) : list nat :=
  match cs with
  | [] => []
  | source_stop source :: cs' => source :: stopped cs'
  | _ :: cs' => stopped cs'
  end.

(** The scheduled set holds each source once, and only sources that were
    started and not stopped; no source was started twice; every source
    named in a call exists. *)
Definition scheduled_ok (w : World) : Prop :=
  NoDup (sourcesRef w) /\
  NoDup (started (calls w)) /\
  (forall n, In n (sourcesRef w) ->
     In n (started (calls w)) /\ ~ In n (stopped (calls w))) /\
  (forall n, In n (started (calls w)) -> (n < objects w)%nat) /\
  (forall n, In n (stopped (calls w)) -> (n < objects w)%nat).

(** A history made of whole turns, none with both texts empty. *)
Inductive whole_turns : list Entry -> Prop :=
| no_turn : whole_turns []
| one_more_turn (l : list Entry) (u m : string) :
    whole_turns l -> (u <> "" \/ m <> "")%string ->
    whole_turns (l ++ TranscriptTurn u m).

(** What a message handler never writes: the React flags, the two refs that
    [stopSession] releases, and the capture side. *)
Definition same_connection (w w' : World) : Prop :=
  isActive w' = isActive w /\ isConnecting w' = isConnecting w /\
  sessionRef w' = sessionRef w /\ audioContextRef w' = audioContextRef w /\
  microphones w' = microphones w /\ processors w' = processors w /\
  sent (calls w') = sent (calls w).

(** The text a message adds to one buffer. *)
Definition added (t : option Transcription) : string :=
  match t with
  | Some fragment => appended fragment
  | None => EmptyString
  end.

(** The three transcript branches of [onmessage], in its order. *)
Definition transcribe (message : LiveServerMessage) : M unit :=
  match field inputTranscription message with
  | Some t => append_user t
  | None => ret tt
  end ;;
  match field outputTranscription message with
  | Some t => append_model t
  | None => ret tt
  end ;;
  when (flag turnComplete message) flush.

(** The history of [w'] is that of [w] followed by whole turns. *)
Definition grows_by_turns (w w' : World) : Prop :=
  exists turns,
    transcriptions w' = transcriptions w ++ turns /\ whole_turns turns.

Definition keeps_scheduled_ok (w w' : World) : Prop :=
  scheduled_ok w -> scheduled_ok w'.

(** Start times that do not overlap: each frame starts at [t], the end of
    what came before it, or later, and at its own clock reading or later. *)
Fixpoint no_overlap (t : Q) (frames : list Arrival) (starts : list Q)
  : Prop :=
  match frames, starts with
  | [], [] => True
  | a :: frames', s :: starts' =>
      (t <= s)%Q /\ (clockNow a <= s)%Q /\
      no_overlap (s + duration (frame a))%Q frames' starts'
  | _, _ => False
  end.

(** *** [onmessage] on both sides of its [await] *)

(** The audio branch from the [await] on: the decode has settled (by
    throwing, for [None]), the source is created, started at the cursor as
    it is then, and the cursor and the scheduled set are updated. *)
Definition start_source (decodeAudio : string -> option AudioBuffer)
    (base64 : string) : M unit :=
  audioBuffer <- match decodeAudio base64 with
                 | Some buffer => ret buffer
                 | None => throw
                 end ;;
  source <- create ;;
  startTime <- read nextStartTimeRef ;;
  call (source_start source startTime audioBuffer) ;;
  write (fun w =>
    set_nextStartTimeRef (nextStartTimeRef w + duration audioBuffer)%Q w) ;;
  write (fun w => set_sourcesRef (Set_add source (sourcesRef w)) w).

(** [onmessage] up to its [await]: the payload under decode, if the message
    has one, after the cursor was raised to the clock reading.  A message
    without a payload has no [await]. *)
Definition onmessage_begin (currentTime : Q) (message : LiveServerMessage)
  : M (option string) :=
  audio <- base64Audio message ;;
  match audio with
  | Some base64 =>
      if truthy base64 then
        cursor <- read nextStartTimeRef ;;
        write (set_nextStartTimeRef (Qmax cursor currentTime)) ;;
        ret (Some base64)
      else ret None
  | None => ret None
  end.

(** [onmessage] from its [await] on, in the world as it is when the handler
    resumes. *)
Definition onmessage_resume (decodeAudio : string -> option AudioBuffer)
    (message : LiveServerMessage) (pending : option string) : M unit :=
  match pending with
  | Some base64 => start_source decodeAudio base64
  | None => ret tt
  end ;;
  when (flag interrupted message) interrupt ;;
  transcribe message.

End Live.

(** ** The video generation component ([VideoView], the first document of
    [src/components/VideoView.tsx]) *)

Module Video.

(** [VideoResult] of [types.ts]; a [Date] is the number it wraps. *)
Module Types.
Inductive Status := processing | completed | failed.
Record VideoResult := {
  url : string;
  prompt : string;
  timestamp : Z;
  status : Status
}.
End Types.
Import Types.

(** The React state of the component. *)
Record State := {
  prompt : string;
  isGenerating : bool;
  hasKey : bool;
  results : list VideoResult;
  statusMessage : string
}.

Inductive HostCall :=
| generateVideos (prompt : string)
| getVideosOperation
| console_error
| alert (message : string).

(** What the service answers to [generateVideos] and to each
    [getVideosOperation]: a rejection (with the [message] of the error, if
    it has one) or an operation with its [done] flag and the [uri] of its
    first generated video. *)
Inductive Reply :=
| rejects (message : option string)
| operation (done : bool) (uri : option string).

(** A run of [handleGenerate]: the state it leaves, the host calls and the
    values given to [setStatusMessage] in order, and whether it returned
    ([settled]) or still awaits a reply. *)
Record Run := {
  state : State;
  calls : list HostCall;
  shown : list string;
  settled : bool
}.

Definition loadingMessages : list string :=
  [ "Crafting cinematic frames...";
    "Simulating physics and motion...";
    "Rendering temporal consistency...";
    "Finalizing textures and lighting...";
    "Packaging high-quality MP4..." ]%string.

(** ECMAScript white space and line terminators among the code units below
    256, which is what a character of [string] stands for here. *)
Definition WhiteSpace (c : ascii) : bool :=
  let n := N_of_ascii c in
  ((9 <=? n) && (n <=? 13) || (n =? 32) || (n =? 160))%N.

(** [!prompt.trim()]. *)
Fixpoint blank (s : string) : bool :=
  match s with
  | EmptyString => true
  | String c rest => WhiteSpace c && blank rest
  end.

(** [hay.includes(needle)]. *)
Fixpoint includes (needle hay : string) : bool :=
  if String.prefix needle hay then true
  else match hay with
       | EmptyString => false
       | String _ rest => includes needle rest
       end.

Definition truthy (s : option string) : bool :=
  match s with
  | Some (String _ _) => true
  | _ => false
  end.

(** A value in a template literal or a string sum. *)
Definition shown_as (s : option string) : string :=
  match s with
  | Some text => text
  | None => "undefined"
  end.

Inductive Polled :=
| ready (uri : option string)
| thrown (message : option string)
| waiting.

(** The [while (!operation.done)] loop: the status messages it shows, the
    number of [getVideosOperation] calls it makes, and how it ends. *)
Fixpoint poll (msgIdx : nat) (done : bool) (uri : option string)
    (replies : list Reply) : list string * nat * Polled :=
  if done then ([], 0%nat, ready uri)
  else
    let message :=
      nth (msgIdx mod List.length loadingMessages) loadingMessages
          EmptyString in
    match replies with
    | [] => ([message], 1%nat, waiting)
    | rejects error :: _ => ([message], 1%nat, thrown error)
    | operation done' uri' :: rest =>
        let '(messages, polls, result) := poll (S msgIdx) done' uri' rest in
        (message :: messages, S polls, result)
    end.

Definition set_generating (b : bool) (message : string) (s : State) : State :=
  {| prompt := prompt s; isGenerating := b; hasKey := hasKey s;
     results := results s; statusMessage := message |}.

(** The [catch] block followed by the [finally] block. *)
Definition caught (error : option string) (s : State)
    (made : list HostCall) (messages : list string) : Run :=
  let expired :=
    match error with
    | Some message => includes "Requested entity was not found" message
    | None => false
    end in
  {| state :=
       {| prompt := prompt s; isGenerating := false;
          hasKey := if expired then false else hasKey s;
          results := results s; statusMessage := "" |};
     calls :=
       made ++
       [ console_error;
         alert (if expired
                then "API Key expired or invalid. Please select again."
                else "Error generating video: " ++
                     (if truthy error then shown_as error
                      else "Unknown error")) ];
     shown := messages ++ [EmptyString];
     settled := true |}.

(** [handleGenerate], run against the replies of the service with no other
    event in between; [API_KEY] is [process.env.API_KEY], which is taken to
    be set, and [now] the date of [new Date()]. *)
Definition handleGenerate (API_KEY : string) (now : Z)
    (replies : list Reply) (s : State) : Run :=
  if blank (prompt s) || isGenerating s then
    {| state := s; calls := []; shown := []; settled := true |}
  else
    let first := "Initializing Veo engine..."%string in
    let asked := [generateVideos (prompt s)] in
    match replies with
    | [] =>
        {| state := set_generating true first s; calls := asked;
           shown := [first]; settled := false |}
    | rejects error :: _ => caught error s asked [first]
    | operation done uri :: rest =>
        let '(messages, polls, result) := poll 0 done uri rest in
        let made := asked ++ repeat getVideosOperation polls in
        match result with
        | waiting =>
            {| state := set_generating true (last messages first) s;
               calls := made; shown := first :: messages;
               settled := false |}
        | thrown error => caught error s made (first :: messages)
        | ready downloadLink =>
            if truthy downloadLink then
              {| state :=
                   {| prompt := prompt s; isGenerating := false;
                      hasKey := hasKey s;
                      results :=
                        {| url := shown_as downloadLink ++ "&key=" ++
                                  API_KEY;
                           Types.prompt := prompt s;
                           timestamp := now;
                           status := completed |} :: results s;
                      statusMessage := "" |};
                 calls := made;
                 shown := first :: messages ++ [EmptyString];
                 settled := true |}
            else
              caught (Some "No video URI returned"%string) s made
                     (first :: messages)
        end
    end.

(** The replies of a service that is asked [List.length uris] times before
    the answer that matters: operations that are not done. *)
Definition not_done (uris : list (option string)) : list Reply :=
  map (operation false) uris.

(** The loading messages of [n] turns of the loop. *)
Definition cycle (n : nat) : list string :=
  map (fun i => nth (i mod 5) loadingMessages EmptyString) (seq 0 n).

(** A reply that ends the loop: a rejection or an operation that is done. *)
Definition decisive (r : Reply) : bool :=
  match r with
  | rejects _ => true
  | operation done _ => done
  end.

Definition ends (final : Reply) : Polled :=
  match final with
  | rejects error => thrown error
  | operation _ uri => ready uri
  end.

End Video.


Import PCM Live Live.Msg.
Local Open Scope Q_scope.

(** * Properties *)

(** ** Teardown *)

Lemma stopSession_world (w : World) :
  stopSession w =
  Normal tt
    (set_nextStartTimeRef 0
       (set_isActive false
          (set_audioContextRef None
             (set_sessionRef None (set_calls (calls w ++ closes w) w))))).
Proof.
  destruct w as [a c t [s|] [x|] n so b mi pr ob ca];
    unfold stopSession, closes, bind, read, write, call, ret; cbn;
    rewrite <- ?app_assoc, ?app_nil_r; reflexivity.
Qed.

Lemma sent_app (cs cs' : list HostCall) : sent (cs ++ cs') = sent cs ++ sent cs'.
Proof.
  induction cs as [|c cs IH]; [reflexivity|].
  destruct c; cbn; rewrite ?IH; reflexivity.
Qed.

Lemma startTimes_app (cs cs' : list HostCall) :
  startTimes (cs ++ cs') = startTimes cs ++ startTimes cs'.
Proof.
  induction cs as [|c cs IH]; [reflexivity|].
  destruct c; cbn; rewrite ?IH; reflexivity.
Qed.

Lemma sent_closes (w : World) : sent (closes w) = [].
Proof. unfold closes. destruct (sessionRef w), (audioContextRef w); reflexivity. Qed.

(** [stopSession] writes neither to the capture graph nor to the microphone
    stream, nor to the scheduled set, nor to the transcript buffers. *)
Lemma stopSession_frame (w : World) :
  let w1 := world_of (stopSession w) in
  processors w1 = processors w /\ microphones w1 = microphones w /\
  sourcesRef w1 = sourcesRef w /\ transcriptionRef w1 = transcriptionRef w /\
  transcriptions w1 = transcriptions w.
Proof. rewrite stopSession_world. cbn. repeat split. Qed.

(** A connected processor sends its frame whether or not [stopSession] ran
    in between. *)
Lemma audioprocess_after_stop (d : string -> option AudioBuffer) (w : World)
    (k s : nat) (inputData : list Q) :
  nth_error (processors w) k = Some s ->
  calls (step d (step d w stop_click) (audioprocess_event k inputData)) =
  calls w ++ closes w ++ [sendRealtimeInput s (pcmBlob inputData)].
Proof.
  intros Hk. unfold step at 2. cbn [handler]. rewrite stopSession_world.
  cbn [world_of]. unfold step, handler, bind, read. cbn.
  rewrite Hk. cbn. rewrite <- app_assoc. reflexivity.
Qed.

(** C7, in general and at the failing trace.  As far as it goes,
    [stopSession] is idempotent: it never throws, it closes what the two
    refs hold, once, and a second call makes no host call and leaves the
    world as it is.  But the state it leaves, after one call as after two,
    is not one without open resources: no call touches the microphone
    streams or the connected processors.  After Start, the opening of the
    channel, End and the remote close that follows it ([stopSession] a
    second time, which changes nothing), the stream and the processor of
    the session are still live and the frame captured next is handed to the
    closed session. *)
Theorem stop_twice_keeps_capture_open (w : World) :
  (exists w1,
     stopSession w = Normal tt w1 /\
     w1 = set_nextStartTimeRef 0
            (set_isActive false
               (set_audioContextRef None
                  (set_sessionRef None (set_calls (calls w ++ closes w) w)))) /\
     stopSession w1 = Normal tt w1 /\
     microphones w1 = microphones w /\ processors w1 = processors w) /\
  let d := audioUtils_decode in
  let once := run d [start_click true true; open_event 3; stop_click]
                mounted in
  let twice := step d once close_event in
  twice = once /\
  calls once = [session_close 3; audioContext_close 1] /\
  Idle twice /\
  microphones twice = [2%nat] /\ processors twice = [3%nat] /\
  calls (step d twice (audioprocess_event 0 [1 # 4])) =
    calls twice ++ [sendRealtimeInput 3 (pcmBlob [1 # 4])].
Proof.
  split.
  - eexists. split; [apply stopSession_world|]. split; [reflexivity|].
    split; [|split; reflexivity].
    rewrite stopSession_world. cbn. rewrite app_nil_r. reflexivity.
  - vm_compute. repeat split.
Qed.

(** C6, as the code has it.  [stopSession], which is also the remote close
    callback, closes the channel and the output audio context when the refs
    hold them and makes no other host call, clears both refs, marks the
    session inactive and sets the cursor to zero.  The remote error callback
    only logs. *)
Theorem stopSession_releases (d : string -> option AudioBuffer) (w : World) :
  exists w1,
    handler d stop_click w = Normal tt w1 /\
    handler d close_event w = Normal tt w1 /\
    calls w1 = calls w ++ closes w /\
    sessionRef w1 = None /\ audioContextRef w1 = None /\
    isActive w1 = false /\ nextStartTimeRef w1 = 0 /\
    handler d error_event w =
      Normal tt (set_calls (calls w ++ [console_error]) w).
Proof.
  eexists. cbn [handler]. unfold onclose.
  split; [apply stopSession_world|].
  split; [apply stopSession_world|].
  cbn. repeat split.
Qed.

(** C6, as stated, fails: after a stop the capture graph is still
    connected, the scheduled set and the user buffer still hold what they
    held. *)
Lemma stop_not_torn_down :
  let w := run audioUtils_decode
             [ start_click true true; open_event 3;
               message_event 5 (audio_message "AAAAAAAA");
               message_event 5 (user_fragment "hel");
               stop_click ] mounted in
  processors w = [3%nat] /\ sourcesRef w = [4%nat] /\
  transcriptionRef w = {| user := "hel"; model := "" |} /\
  ~ torn_down w.
Proof.
  vm_compute. repeat split. intros (H & _). discriminate H.
Qed.

(** C9, at the failing trace.  After the stop the world is [Idle], yet the
    microphone stream is live, the script processor is connected, and the
    frame captured next is handed to the closed channel. *)
Theorem capture_outlives_stop :
  let w := run audioUtils_decode
             [ start_click true true; open_event 3;
               audioprocess_event 0 [1 # 2]; stop_click ] mounted in
  let w' := step audioUtils_decode w (audioprocess_event 0 [1 # 4]) in
  Idle w /\ microphones w = [2%nat] /\ processors w = [3%nat] /\
  sent (calls w) = [pcmBlob [1 # 2]] /\
  calls w' = calls w ++ [sendRealtimeInput 3 (pcmBlob [1 # 4])].
Proof. vm_compute. repeat split. Qed.

(** ** Message handling, branch by branch *)

Lemma forEach_stop (l : list nat) (w : World) :
  forEach l (fun s => call (source_stop s)) w =
  Normal tt (set_calls (calls w ++ map source_stop l) w).
Proof.
  revert w. induction l as [|s l IH]; intros w.
  - destruct w. cbn. rewrite app_nil_r. reflexivity.
  - cbn [forEach map]. unfold bind at 1. unfold call at 1, write.
    rewrite IH. cbn. rewrite <- app_assoc. reflexivity.
Qed.

Lemma interrupt_world (w : World) :
  interrupt w =
  Normal tt
    (set_nextStartTimeRef 0
       (set_sourcesRef []
          (set_calls (calls w ++ map source_stop (sourcesRef w)) w))).
Proof.
  unfold interrupt, bind, read. rewrite forEach_stop. reflexivity.
Qed.

Lemma flush_world (w : World) :
  let u := user (transcriptionRef w) in
  let m := model (transcriptionRef w) in
  flush w =
  Normal tt
    (set_transcriptionRef no_buffers
       (if truthy u || truthy m
        then set_transcriptions (transcriptions w ++ TranscriptTurn u m) w
        else w)).
Proof.
  cbn. unfold flush, bind, read, when, write, ret.
  destruct (truthy (user (transcriptionRef w)) ||
            truthy (model (transcriptionRef w)))%bool; reflexivity.
Qed.

Lemma schedule_world (d : string -> option AudioBuffer) (now : Q)
    (base64 : string) (buffer : AudioBuffer) (w : World) :
  d base64 = Some buffer ->
  let startTime := Qmax (nextStartTimeRef w) now in
  schedule d now base64 w =
  Normal tt
    (set_sourcesRef (Set_add (objects w) (sourcesRef w))
       (set_nextStartTimeRef (startTime + duration buffer)
          (set_calls (calls w ++ [source_start (objects w) startTime buffer])
             (set_objects (S (objects w)) w)))).
Proof.
  intros Hd. unfold schedule, bind, read, write, create, call, ret.
  rewrite Hd. reflexivity.
Qed.

Lemma onmessage_audio (d : string -> option AudioBuffer) (now : Q)
    (base64 : string) (w : World) :
  truthy base64 = true ->
  onmessage d now (audio_message base64) w = schedule d now base64 w.
Proof.
  intros Ht. unfold onmessage, bind. cbn -[schedule]. rewrite Ht.
  cbn -[schedule]. destruct (schedule d now base64 w) as [[] w'|w'];
    reflexivity.
Qed.

Lemma onmessage_interruption (d : string -> option AudioBuffer) (now : Q)
    (w : World) :
  onmessage d now interruption_message w = interrupt w.
Proof.
  unfold onmessage, bind. cbn -[interrupt].
  destruct (interrupt w) as [[] w'|w']; reflexivity.
Qed.

Lemma onmessage_turn_complete (d : string -> option AudioBuffer) (now : Q)
    (w : World) :
  onmessage d now turn_complete_message w = flush w.
Proof. reflexivity. Qed.

Lemma truthy_iff (s : string) : truthy s = true <-> s <> ""%string.
Proof. destruct s; cbn; split; congruence. Qed.

Lemma either_truthy (u m : string) :
  (truthy u || truthy m)%bool = true <-> (u <> "" \/ m <> "")%string.
Proof. rewrite orb_true_iff, !truthy_iff. reflexivity. Qed.

Lemma neither_truthy (u m : string) :
  (truthy u || truthy m)%bool = false <-> (u = "" /\ m = "")%string.
Proof.
  destruct u, m; cbn; split;
    first [ intros [H1 H2]; congruence
          | intros H; congruence
          | intros _; split; reflexivity ].
Qed.

(** ** Transcript aggregation *)

(** C5 (turn-complete).  A turn-complete message never throws and clears
    both buffers; when one of them held text, the history grows by exactly
    the pair of entries of one turn, holding the two buffers as they were
    (either may be empty); when both were empty the history is unchanged;
    and a turn-complete handled right after changes nothing at all. *)
Theorem turn_complete_flushes (d : string -> option AudioBuffer) (now : Q)
    (w : World) :
  let u := user (transcriptionRef w) in
  let m := model (transcriptionRef w) in
  exists w1,
    onmessage d now turn_complete_message w = Normal tt w1 /\
    transcriptionRef w1 = no_buffers /\
    ((u <> "" \/ m <> "")%string ->
       w1 = set_transcriptionRef no_buffers
              (set_transcriptions (transcriptions w ++ TranscriptTurn u m) w)) /\
    ((u = "" /\ m = "")%string -> transcriptions w1 = transcriptions w) /\
    (forall now', onmessage d now' turn_complete_message w1 = Normal tt w1).
Proof.
  cbv zeta. eexists. rewrite onmessage_turn_complete.
  split; [apply flush_world|]. cbn [transcriptionRef set_transcriptionRef].
  split; [reflexivity|]. split; [|split].
  - intros H. apply either_truthy in H. rewrite H. reflexivity.
  - intros H. apply neither_truthy in H. rewrite H. reflexivity.
  - intros now'. rewrite onmessage_turn_complete, flush_world. reflexivity.
Qed.

(** The spec's example: "hel", "lo" from the user and "hi" from the model,
    then two turn-complete messages. *)
Lemma turn_complete_flushes_witness :
  let w := run audioUtils_decode
             [ message_event 0 (user_fragment "hel");
               message_event 0 (user_fragment "lo");
               message_event 0 (model_fragment "hi") ] mounted in
  transcriptionRef w = {| user := "hello"; model := "hi" |} /\
  exists w1,
    onmessage audioUtils_decode 0 turn_complete_message w = Normal tt w1 /\
    transcriptions w1 = TranscriptTurn "hello" "hi" /\
    transcriptionRef w1 = no_buffers /\
    onmessage audioUtils_decode 0 turn_complete_message w1 = Normal tt w1.
Proof.
  cbv zeta. split; [reflexivity|].
  destruct (turn_complete_flushes audioUtils_decode 0
              (run audioUtils_decode
                 [ message_event 0 (user_fragment "hel");
                   message_event 0 (user_fragment "lo");
                   message_event 0 (model_fragment "hi") ] mounted))
    as (w1 & H1 & H2 & H3 & _ & H5).
  exists w1. split; [exact H1|]. split; [|split; [exact H2|apply H5]].
  rewrite H3; [reflexivity|]. left. discriminate.
Defined.

(** ** Interruption *)

(** C10 (an interruption leaves the transcript alone).  An interruption
    message never throws and writes three things only: the record of host
    calls (one [stop] per scheduled source), the scheduled set and the
    cursor.  Both transcript buffers and the history are as before, and the
    turn-complete that comes next emits the turn made of the fragments
    gathered before the interruption. *)
Theorem interruption_keeps_transcript (d : string -> option AudioBuffer)
    (now now' : Q) (w : World) :
  let u := user (transcriptionRef w) in
  let m := model (transcriptionRef w) in
  exists w1 w2,
    onmessage d now interruption_message w = Normal tt w1 /\
    w1 = set_nextStartTimeRef 0
           (set_sourcesRef []
              (set_calls (calls w ++ map source_stop (sourcesRef w)) w)) /\
    transcriptionRef w1 = transcriptionRef w /\
    transcriptions w1 = transcriptions w /\
    onmessage d now' turn_complete_message w1 = Normal tt w2 /\
    ((u <> "" \/ m <> "")%string ->
       transcriptions w2 = transcriptions w ++ TranscriptTurn u m).
Proof.
  cbv zeta. eexists. eexists.
  rewrite onmessage_interruption, onmessage_turn_complete.
  split; [apply interrupt_world|]. split; [reflexivity|].
  split; [reflexivity|]. split; [reflexivity|].
  split; [apply flush_world|].
  intros H. apply either_truthy in H.
  cbn [transcriptionRef set_nextStartTimeRef set_sourcesRef set_calls].
  rewrite H. reflexivity.
Qed.

Lemma interruption_keeps_transcript_witness :
  let w := run audioUtils_decode
             [ message_event 5 (audio_message "AAAAAAAA");
               message_event 5 (model_fragment "good mor") ] mounted in
  sourcesRef w = [0%nat] /\
  transcriptionRef w = {| user := ""; model := "good mor" |} /\
  exists w1 w2,
    onmessage audioUtils_decode 6 interruption_message w = Normal tt w1 /\
    sourcesRef w1 = [] /\
    onmessage audioUtils_decode 7 turn_complete_message w1 = Normal tt w2 /\
    transcriptions w2 = TranscriptTurn "" "good mor".
Proof.
  cbv zeta. split; [reflexivity|]. split; [reflexivity|].
  destruct (interruption_keeps_transcript audioUtils_decode 6 7
              (run audioUtils_decode
                 [ message_event 5 (audio_message "AAAAAAAA");
                   message_event 5 (model_fragment "good mor") ] mounted))
    as (w1 & w2 & H1 & H2 & _ & _ & H5 & H6).
  exists w1, w2. split; [exact H1|]. split; [rewrite H2; reflexivity|].
  split; [exact H5|]. rewrite H6; [reflexivity|]. right. discriminate.
Defined.

(** C2 (interruption resets the scheduler).  An interruption message calls
    [stop] on every source of the scheduled set, in the order of the set,
    and makes no other host call; it leaves the set empty and the cursor at
    zero.  The audio chunk that comes next, at a clock reading [now'] that
    is not negative, starts at [now'], whatever the cursor was before the
    interruption, and is alone in the set. *)
Theorem interruption_resets (d : string -> option AudioBuffer)
    (now now' : Q) (base64 : string) (buffer : AudioBuffer) (w : World) :
  0 <= now' -> truthy base64 = true -> d base64 = Some buffer ->
  exists w1 w2 startTime,
    onmessage d now interruption_message w = Normal tt w1 /\
    calls w1 = calls w ++ map source_stop (sourcesRef w) /\
    sourcesRef w1 = [] /\
    nextStartTimeRef w1 = 0 /\
    onmessage d now' (audio_message base64) w1 = Normal tt w2 /\
    calls w2 = calls w1 ++ [source_start (objects w) startTime buffer] /\
    startTime == now' /\
    sourcesRef w2 = [objects w] /\
    nextStartTimeRef w2 == now' + duration buffer.
Proof.
  intros Hnow Ht Hd. eexists. eexists. eexists.
  rewrite onmessage_interruption, (onmessage_audio _ _ _ _ Ht).
  split; [apply interrupt_world|].
  split; [reflexivity|]. split; [reflexivity|]. split; [reflexivity|].
  split; [apply (schedule_world _ _ _ _ _ Hd)|].
  cbn. split; [reflexivity|].
  assert (Hmax : Qmax 0 now' == now') by (apply Q.max_r; exact Hnow).
  split; [exact Hmax|]. split; [reflexivity|].
  rewrite Hmax. reflexivity.
Qed.

Lemma interruption_resets_witness :
  let w := run audioUtils_decode
             [ message_event 5 (audio_message "AAAAAAAA");
               message_event 5 (audio_message "AAAAAAAAAAAAAAAA") ] mounted in
  sourcesRef w = [0%nat; 1%nat] /\
  nextStartTimeRef w == 5 + (9 # 24000) /\
  exists w1 w2 startTime,
    onmessage audioUtils_decode 6 interruption_message w = Normal tt w1 /\
    calls w1 = calls w ++ [source_stop 0; source_stop 1] /\
    onmessage audioUtils_decode 7 (audio_message "AAAAAAAA") w1
      = Normal tt w2 /\
    startTimes (calls w2) = startTimes (calls w1) ++ [startTime] /\
    startTime == 7.
Proof.
  cbv zeta. split; [reflexivity|]. split; [reflexivity|].
  destruct (interruption_resets audioUtils_decode 6 7 "AAAAAAAA"
              {| channelData := [0 # 32768; 0 # 32768; 0 # 32768];
                 sampleRate := 24000 |}
              (run audioUtils_decode
                 [ message_event 5 (audio_message "AAAAAAAA");
                   message_event 5 (audio_message "AAAAAAAAAAAAAAAA") ]
                 mounted))
    as (w1 & w2 & t & H1 & H2 & _ & _ & H5 & H6 & H7 & _);
    [discriminate|reflexivity|reflexivity|].
  exists w1, w2, t. split; [exact H1|]. split; [exact H2|].
  split; [exact H5|]. split; [|exact H7].
  rewrite H6. apply startTimes_app.
Defined.

(** ** Scheduling *)

Lemma run_cons (d : string -> option AudioBuffer) (e : Event)
    (events : list Event) (w : World) :
  run d (e :: events) w = run d events (step d w e).
Proof. reflexivity. Qed.

Lemma step_audio (d : string -> option AudioBuffer) (a : Arrival) (w : World) :
  truthy (payload a) = true -> d (payload a) = Some (frame a) ->
  let startTime := Qmax (nextStartTimeRef w) (clockNow a) in
  step d w (message_event (clockNow a) (audio_message (payload a))) =
  set_sourcesRef (Set_add (objects w) (sourcesRef w))
    (set_nextStartTimeRef (startTime + duration (frame a))
       (set_calls (calls w ++ [source_start (objects w) startTime (frame a)])
          (set_objects (S (objects w)) w))).
Proof.
  intros Ht Hd. unfold step. cbn [handler].
  rewrite (onmessage_audio _ _ _ _ Ht), (schedule_world _ _ _ _ _ Hd).
  reflexivity.
Qed.

(** The calls made for a run of decodable audio chunks: one [start] per
    chunk, on a fresh source, at the start time the spec's recursion gives. *)
Lemma run_arrivals (d : string -> option AudioBuffer) (frames : list Arrival) :
  Forall (fun a => truthy (payload a) = true /\ d (payload a) = Some (frame a))
         frames ->
  forall w,
    startTimes (calls (run d (arrivals frames) w)) =
      startTimes (calls w) ++ spec_startTimes (nextStartTimeRef w) frames /\
    nextStartTimeRef (run d (arrivals frames) w) =
      spec_cursor (nextStartTimeRef w) frames.
Proof.
  induction 1 as [|a frames [Ht Hd] _ IH]; intros w.
  - cbn. rewrite app_nil_r. split; reflexivity.
  - change (arrivals (a :: frames))
      with (message_event (clockNow a) (audio_message (payload a))
              :: arrivals frames).
    rewrite run_cons, (step_audio _ _ _ Ht Hd).
    match goal with |- context [run d (arrivals frames) ?x] =>
      destruct (IH x) as [IHc IHn] end.
    rewrite IHc, IHn. cbn. rewrite startTimes_app, <- app_assoc.
    split; reflexivity.
Qed.

(** Chunks that all arrive on time are played back to back: no gap, no
    overlap, whatever the clock read when each was handled. *)
Lemma on_time_gapless (frames : list Arrival) :
  forall cursor t,
    cursor == t -> on_time t frames ->
    Forall2 Qeq (spec_startTimes cursor frames) (gapless t frames).
Proof.
  induction frames as [|a frames IH]; intros cursor t Hct Hon.
  - constructor.
  - destruct Hon as [Hnow Hrest]. cbn [spec_startTimes gapless].
    assert (Hmax : Qmax cursor (clockNow a) == t).
    { rewrite Q.max_l; [exact Hct|]. rewrite Hct. exact Hnow. }
    constructor; [exact Hmax|].
    apply IH; [|exact Hrest]. rewrite Hmax. reflexivity.
Qed.

(** The same on the code: a run of decodable chunks that all arrive on time
    starts each source where the previous buffer ends. *)
Lemma run_on_time (d : string -> option AudioBuffer) (frames : list Arrival)
    (w : World) :
  Forall (fun a => truthy (payload a) = true /\ d (payload a) = Some (frame a))
         frames ->
  on_time (nextStartTimeRef w) frames ->
  exists ts,
    startTimes (calls (run d (arrivals frames) w)) = startTimes (calls w) ++ ts /\
    Forall2 Qeq ts (gapless (nextStartTimeRef w) frames).
Proof.
  intros Hframes Hon. eexists. split.
  - apply (run_arrivals d frames Hframes w).
  - apply on_time_gapless; [reflexivity|exact Hon].
Qed.

(** C1 (scheduling).  For audio chunks handled in order, the start times
    handed to [source.start] are those of the spec's recursion: each is
    [max(cursor, clockNow)] for the cursor and the clock at that call, and
    the cursor moves to that start time plus the duration of the frame.  In
    particular three frames of 1 s, 0.5 s and 2 s, the first handled at
    [t0] with the cursor not beyond [t0] and each next one handled before
    the end of the previous frame, start at [t0], [t0 + 1] and
    [t0 + 1.5]. *)
Theorem schedule_start_times (d : string -> option AudioBuffer)
    (frames : list Arrival) (w : World) :
  Forall (fun a => truthy (payload a) = true /\ d (payload a) = Some (frame a))
         frames ->
  let w' := run d (arrivals frames) w in
  startTimes (calls w') =
    startTimes (calls w) ++ spec_startTimes (nextStartTimeRef w) frames /\
  nextStartTimeRef w' = spec_cursor (nextStartTimeRef w) frames /\
  (forall a1 a2 a3,
     frames = [a1; a2; a3] ->
     duration (frame a1) == 1 ->
     duration (frame a2) == 1 # 2 ->
     duration (frame a3) == 2 ->
     nextStartTimeRef w <= clockNow a1 ->
     clockNow a2 <= clockNow a1 + 1 ->
     clockNow a3 <= clockNow a1 + (3 # 2) ->
     exists s1 s2 s3,
       startTimes (calls w') = startTimes (calls w) ++ [s1; s2; s3] /\
       s1 == clockNow a1 /\
       s2 == clockNow a1 + 1 /\
       s3 == clockNow a1 + (3 # 2)).
Proof.
  intros Hframes. cbv zeta.
  destruct (run_arrivals d frames Hframes w) as [Hcalls Hcursor].
  split; [exact Hcalls|]. split; [exact Hcursor|].
  intros a1 a2 a3 -> H1 H2 H3 Hc Hn2 Hn3.
  rewrite Hcalls. cbn [spec_startTimes].
  do 3 eexists. split; [reflexivity|].
  assert (E1 : Qmax (nextStartTimeRef w) (clockNow a1) == clockNow a1)
    by (apply Q.max_r; exact Hc).
  assert (E2 : Qmax (Qmax (nextStartTimeRef w) (clockNow a1)
                     + duration (frame a1)) (clockNow a2)
               == clockNow a1 + 1).
  { rewrite Q.max_l; rewrite E1, H1; [reflexivity|exact Hn2]. }
  split; [exact E1|]. split; [exact E2|].
  rewrite Q.max_l; rewrite E2, H2.
  - rewrite <- Qplus_assoc. reflexivity.
  - rewrite <- Qplus_assoc. exact Hn3.
Qed.


(** ** The cursor *)

Lemma base64Audio_keeps (message : LiveServerMessage) (w : World) :
  world_of (base64Audio message w) = w.
Proof.
  unfold base64Audio.
  destruct (serverContent message) as [content|]; [|reflexivity].
  destruct (modelTurn content) as [turn|]; [|reflexivity].
  destruct (parts turn) as [[|part ps]|]; reflexivity.
Qed.

Section Respect.

Variable R : World -> World -> Prop.
Hypothesis R_refl : forall w, R w w.
Hypothesis R_trans : forall w1 w2 w3, R w1 w2 -> R w2 w3 -> R w1 w3.

Lemma respects_ret {A} (a : A) : respects R (ret a).
Proof. intros w. apply R_refl. Qed.

Lemma respects_throw {A} : respects R (@throw A).
Proof. intros w. apply R_refl. Qed.

Lemma respects_read {A} (f : World -> A) : respects R (read f).
Proof. intros w. apply R_refl. Qed.

Lemma respects_write (f : World -> World) :
  (forall w, R w (f w)) -> respects R (write f).
Proof. intros H w. apply H. Qed.

Lemma respects_bind {A B} (m : M A) (k : A -> M B) :
  respects R m -> (forall a, respects R (k a)) -> respects R (bind m k).
Proof.
  intros Hm Hk w. unfold bind. specialize (Hm w).
  destruct (m w) as [a w'|w']; cbn in Hm |- *.
  - eapply R_trans; [exact Hm|apply Hk].
  - exact Hm.
Qed.

Lemma respects_when (b : bool) (m : M unit) :
  respects R m -> respects R (when b m).
Proof. destruct b; intros H; [exact H|apply respects_ret]. Qed.

Lemma respects_forEach {A} (l : list A) (f : A -> M unit) :
  (forall x, respects R (f x)) -> respects R (forEach l f).
Proof.
  intros Hf. induction l as [|x l IH]; cbn.
  - apply respects_ret.
  - apply respects_bind; [apply Hf|intros _; exact IH].
Qed.

(** A message handler respects what its five branches respect. *)
Lemma respects_onmessage (d : string -> option AudioBuffer) (now : Q)
    (message : LiveServerMessage) :
  (forall base64, respects R (schedule d now base64)) ->
  respects R (when (flag interrupted message) interrupt) ->
  (forall t, respects R (append_user t)) ->
  (forall t, respects R (append_model t)) ->
  respects R flush ->
  respects R (onmessage d now message).
Proof.
  intros Hs Hi Hu Hm Hf. unfold onmessage.
  apply respects_bind.
  { intros w. rewrite base64Audio_keeps. apply R_refl. }
  intros audio. apply respects_bind.
  { destruct audio as [base64|];
      [apply respects_when, Hs|apply respects_ret]. }
  intros _. apply respects_bind; [exact Hi|].
  intros _. apply respects_bind.
  { destruct (field inputTranscription message);
      [apply Hu|apply respects_ret]. }
  intros _. apply respects_bind.
  { destruct (field outputTranscription message);
      [apply Hm|apply respects_ret]. }
  intros _. apply respects_when, Hf.
Qed.

End Respect.






Lemma schedule_throws (d : string -> option AudioBuffer) (now : Q)
    (base64 : string) (w : World) :
  d base64 = None ->
  schedule d now base64 w =
  Throw (set_nextStartTimeRef (Qmax (nextStartTimeRef w) now) w).
Proof.
  intros Hd. unfold schedule, bind, read, write, throw. rewrite Hd.
  reflexivity.
Qed.







(** ** The codec *)

Local Open Scope Z_scope.

Lemma sextet_table :
  forallb (fun i => match char_sextet (sextet_char i) with
                    | Some j => (i =? j) && negb (is_pad (sextet_char i))
                    | None => false
                    end)
          (map Z.of_nat (seq 0 64)) = true.
Proof. vm_compute. reflexivity. Qed.

Lemma char_sextet_char (i : Z) :
  0 <= i < 64 ->
  char_sextet (sextet_char i) = Some i /\ is_pad (sextet_char i) = false.
Proof.
  intros Hi. pose proof sextet_table as H.
  rewrite forallb_forall in H. specialize (H i).
  destruct (char_sextet (sextet_char i)) as [j|].
  - assert (Hin : In i (map Z.of_nat (seq 0 64))).
    { apply in_map_iff. exists (Z.to_nat i). split; [lia|].
      apply in_seq. lia. }
    apply H in Hin. apply andb_true_iff in Hin. destruct Hin as [E P].
    apply Z.eqb_eq in E. apply negb_true_iff in P. subst. split; auto.
  - exfalso. assert (Hin : In i (map Z.of_nat (seq 0 64))).
    { apply in_map_iff. exists (Z.to_nat i). split; [lia|].
      apply in_seq. lia. }
    apply H in Hin. discriminate.
Qed.

Lemma list_ind3 {A} (P : list A -> Prop) :
  P [] -> (forall a, P [a]) -> (forall a b, P [a; b]) ->
  (forall a b c l, P l -> P (a :: b :: c :: l)) ->
  forall l, P l.
Proof.
  intros H0 H1 H2 H3.
  fix IH 1. intros [|a [|b [|c l]]];
    [exact H0|apply H1|apply H2|apply H3, IH].
Qed.

Ltac euclid := Z.to_euclidean_division_equations; lia.

Ltac sextet i :=
  let H := fresh in
  destruct (char_sextet_char i) as [H _]; [euclid|rewrite H; clear H].

Lemma decode_encode (bytes : list Z) :
  Forall byte_ok bytes -> decode (encode bytes) = Some bytes.
Proof.
  induction bytes as [|a|a b|a b c l IH] using list_ind3; intros Hb.
  - reflexivity.
  - inversion_clear Hb as [|? ? Ha _]. unfold byte_ok in Ha.
    cbn [encode decode].
    sextet (a / 4). sextet (a mod 4 * 16). cbn.
    replace (a mod 4 * 16 mod 16 =? 0) with true
      by (symmetry; apply Z.eqb_eq; euclid).
    do 2 f_equal. euclid.
  - inversion_clear Hb as [|? ? Ha Hb']. inversion_clear Hb' as [|? ? Hb _].
    unfold byte_ok in Ha, Hb. cbn [encode decode].
    sextet (a / 4). sextet (a mod 4 * 16 + b / 16). sextet (b mod 16 * 4).
    cbn.
    replace (b mod 16 * 4 mod 4 =? 0) with true
      by (symmetry; apply Z.eqb_eq; euclid).
    f_equal. f_equal; [euclid|]. f_equal. euclid.
  - inversion_clear Hb as [|? ? Ha Hb']. inversion_clear Hb' as [|? ? Hb Hc'].
    inversion_clear Hc' as [|? ? Hc Hl].
    unfold byte_ok in Ha, Hb, Hc. cbn [encode decode].
    sextet (a / 4). sextet (a mod 4 * 16 + b / 16).
    sextet (b mod 16 * 4 + c / 64). sextet (c mod 64).
    rewrite (IH Hl).
    f_equal. f_equal; [euclid|]. f_equal; [euclid|]. f_equal. euclid.
Qed.

Lemma ToInt16_range (x : Q) : int16_ok (ToInt16 x).
Proof.
  unfold int16_ok, ToInt16. cbv zeta.
  destruct (32768 <=? truncate x mod 65536) eqn:E;
    [apply Z.leb_le in E|apply Z.leb_gt in E]; euclid.
Qed.

Lemma ToInt16_in_range (x : Q) :
  int16_ok (truncate x) -> ToInt16 x = truncate x.
Proof.
  unfold int16_ok, ToInt16. cbv zeta. intros H.
  destruct (32768 <=? truncate x mod 65536) eqn:E;
    [apply Z.leb_le in E|apply Z.leb_gt in E]; euclid.
Qed.

Lemma int16_bytes_ok (n : Z) : Forall byte_ok (int16_bytes n).
Proof. unfold int16_bytes, byte_ok. repeat constructor; euclid. Qed.

Lemma int16_of_bytes_bytes (n : Z) :
  int16_ok n -> int16_of_bytes (n mod 256) ((n / 256) mod 256) = n.
Proof.
  unfold int16_ok, int16_of_bytes. cbv zeta. intros H.
  destruct (32768 <=? n mod 256 + 256 * ((n / 256) mod 256)) eqn:E;
    [apply Z.leb_le in E|apply Z.leb_gt in E]; euclid.
Qed.

Lemma Int16Array_bytes (int16 : list Z) :
  Forall int16_ok int16 ->
  Int16Array_of_bytes (Uint8Array_of_Int16Array int16) = Some int16.
Proof.
  induction 1 as [|n l Hn _ IH]; [reflexivity|].
  cbn [Uint8Array_of_Int16Array flat_map int16_bytes app Int16Array_of_bytes].
  fold (Uint8Array_of_Int16Array l). rewrite IH, (int16_of_bytes_bytes n Hn).
  reflexivity.
Qed.

Lemma Uint8Array_ok (int16 : list Z) :
  Forall byte_ok (Uint8Array_of_Int16Array int16).
Proof.
  induction int16 as [|n l IH]; [constructor|].
  cbn [Uint8Array_of_Int16Array flat_map]. apply Forall_app. split;
    [apply int16_bytes_ok|exact IH].
Qed.

Lemma quantize_ok (inputData : list Q) : Forall int16_ok (quantize inputData).
Proof.
  induction inputData as [|x l IH]; constructor;
    [apply ToInt16_range|exact IH].
Qed.

Lemma truncate_scaled (x : Q) :
  (-1 <= x)%Q -> (x < 1)%Q -> int16_ok (truncate (x * 32768)%Q).
Proof.
  destruct x as [n d]. unfold Qle, Qlt, int16_ok, truncate. cbn.
  intros Hlo Hhi. rewrite Pos.mul_1_r.
  Z.to_euclidean_division_equations. nia.
Qed.

Lemma truncate_error (y : Q) : (Qabs (inject_Z (truncate y) - y) < 1)%Q.
Proof.
  apply Qabs_Qlt_condition. destruct y as [n d].
  unfold Qlt, truncate, Qminus, Qplus, Qopp, inject_Z. cbn.
  Z.to_euclidean_division_equations. nia.
Qed.

Local Open Scope Q_scope.

(** What comes back of any captured frame: every sample, scaled, converted
    by [ToInt16] and scaled back.  Neither the byte view nor the text
    transform loses or swaps anything. *)
Lemma round_trip_samples (inputData : list Q) :
  audioUtils_decode
    (encode (Uint8Array_of_Int16Array (quantize inputData))) =
  Some {| channelData :=
            map (fun x => inject_Z (ToInt16 (x * 32768)) / 32768) inputData;
          sampleRate := 24000 |}.
Proof.
  unfold audioUtils_decode, decodeAudioData.
  rewrite (decode_encode _ (Uint8Array_ok _)).
  rewrite (Int16Array_bytes _ (quantize_ok _)).
  unfold quantize. rewrite map_map. reflexivity.
Qed.

Lemma scaled_back_error (x : Q) (n : Z) :
  Qabs (inject_Z n - x * 32768) < 1 ->
  Qabs (inject_Z n / 32768 - x) < 1 # 32768.
Proof.
  intros H. apply Qabs_Qlt_condition in H. destruct H as [Hlo Hhi].
  apply Qabs_Qlt_condition.
  assert (E : inject_Z n / 32768 - x == (inject_Z n - x * 32768) * (1 # 32768))
    by field.
  rewrite E. split.
  - setoid_replace (- (1 # 32768)) with (- (1) * (1 # 32768)) by reflexivity.
    apply Qmult_lt_r; [reflexivity|exact Hlo].
  - setoid_replace (1 # 32768) with (1 * (1 # 32768)) at 2 by reflexivity.
    apply Qmult_lt_r; [reflexivity|exact Hhi].
Qed.

(** On [[-1, 1)] the codec is exact up to one quantisation step. *)
Lemma round_trip_within_quantum (inputData : list Q) :
  Forall (fun x => -1 <= x /\ x < 1) inputData ->
  exists out,
    round_trip inputData = Some out /\
    Forall2 (fun x y => Qabs (y - x) < 1 # 32768) inputData out.
Proof.
  intros Hin. unfold round_trip, pcmBlob. cbn [data].
  rewrite round_trip_samples. cbn [option_map channelData].
  eexists. split; [reflexivity|].
  induction Hin as [|x l [Hlo Hhi] _ IH]; cbn [map]; constructor;
    [|exact IH].
  rewrite (ToInt16_in_range _ (truncate_scaled x Hlo Hhi)).
  apply scaled_back_error, truncate_error.
Qed.

(** C3, at the failing input.  A full-scale positive sample comes back as
    full-scale negative: [1 * 32768] does not fit 16 bits and [ToInt16]
    wraps it to [-32768].  The error is 2, not [1/32768]. *)
Theorem round_trip_full_scale :
  quantize [1] = [(-32768)%Z] /\
  round_trip [1] = Some [-32768 # 32768] /\
  (-32768 # 32768) - 1 == -2 /\
  ~ Qabs ((-32768 # 32768) - 1) <= 1 # 32768.
Proof.
  split; [reflexivity|]. split; [vm_compute; reflexivity|].
  split; [reflexivity|]. intros H. vm_compute in H. apply H. reflexivity.
Qed.

(** C4, as the code has it.  For samples in [[-1, 1)] the stored integer is
    the scaled sample truncated toward zero: it lies in the 16-bit range
    (no wrap-around) within one unit of the scaled sample.  The bytes are
    the two bytes of each integer, low byte first, and read back as the same
    integers; the data of the blob is their base64 text, which decodes to
    the same bytes. *)
Theorem quantize_truncates (inputData : list Q) :
  Forall (fun x => -1 <= x /\ x < 1) inputData ->
  let int16 := quantize inputData in
  let bytes := Uint8Array_of_Int16Array int16 in
  int16 = map (fun x => truncate (x * 32768)) inputData /\
  Forall int16_ok int16 /\
  Forall2 (fun x n => Qabs (inject_Z n - x * 32768) < 1) inputData int16 /\
  bytes = flat_map (fun n => [n mod 256; (n / 256) mod 256]%Z) int16 /\
  Forall byte_ok bytes /\
  Int16Array_of_bytes bytes = Some int16 /\
  data (pcmBlob inputData) = Some (encode bytes) /\
  decode (encode bytes) = Some bytes.
Proof.
  intros Hin. cbv zeta.
  assert (E : quantize inputData = map (fun x => truncate (x * 32768)) inputData).
  { unfold quantize. apply map_ext_in. intros x Hx.
    rewrite Forall_forall in Hin. destruct (Hin x Hx) as [Hlo Hhi].
    apply ToInt16_in_range, truncate_scaled; assumption. }
  split; [exact E|]. split; [apply quantize_ok|].
  split.
  { rewrite E. clear E. induction Hin as [|x l _ _ IH]; cbn [map];
      constructor; [apply truncate_error|exact IH]. }
  split; [reflexivity|]. split; [apply Uint8Array_ok|].
  split; [apply Int16Array_bytes, quantize_ok|].
  split; [reflexivity|]. apply decode_encode, Uint8Array_ok.
Qed.

Lemma quantize_truncates_witness :
  let inputData := [-1; 3 # 131072; -3 # 131072; 1 # 2; 65535 # 65536] in
  quantize inputData = [-32768; 0; 0; 16384; 32767]%Z /\
  Uint8Array_of_Int16Array (quantize inputData)
    = [0; 128; 0; 0; 0; 0; 0; 64; 255; 127]%Z /\
  Int16Array_of_bytes (Uint8Array_of_Int16Array (quantize inputData))
    = Some (quantize inputData).
Proof.
  cbv zeta.
  assert (Hin : Forall (fun x => -1 <= x /\ x < 1)
                  [-1; 3 # 131072; -3 # 131072; 1 # 2; 65535 # 65536]).
  { repeat constructor; discriminate. }
  destruct (quantize_truncates _ Hin) as (H1 & _ & _ & H4 & _ & H6 & _).
  split; [rewrite H1; reflexivity|].
  split; [rewrite H4, H1; reflexivity|exact H6].
Defined.

(** C4, as stated, fails twice: a scaled sample of [0.75] is stored as [0],
    not as its nearest integer [1]; and the in-range sample [1] is stored as
    [-32768], where clamping gives [32767]. *)
Lemma quantize_not_rounded_nor_clamped :
  quantize [3 # 131072] = [0%Z] /\ spec_quantize (3 # 131072) = 1%Z /\
  quantize [1] = [(-32768)%Z] /\ spec_quantize 1 = 32767%Z /\
  ~ (forall x, -1 <= x <= 1 -> quantize [x] = [spec_quantize x]).
Proof.
  split; [reflexivity|]. split; [reflexivity|].
  split; [reflexivity|]. split; [reflexivity|].
  intros H. specialize (H (3 # 131072)).
  assert (Hx : -1 <= 3 # 131072 <= 1) by (split; discriminate).
  apply H in Hx. discriminate Hx.
Qed.

(** ** Chunks of silence, as concrete arrivals *)

Lemma silence_decodes (now : Q) (samples : nat) :
  audioUtils_decode (payload (silent_arrival now samples)) =
  Some (frame (silent_arrival now samples)).
Proof.
  cbn [payload frame silent_arrival]. unfold silence.
  rewrite round_trip_samples, map_repeat. reflexivity.
Qed.

Lemma silence_truthy (now : Q) (samples : N) :
  samples <> 0%N ->
  truthy (payload (silent_arrival now (N.to_nat samples))) = true.
Proof.
  intros Hn. destruct (N.to_nat samples) as [|n] eqn:E.
  - exfalso. apply Hn. rewrite <- (N2Nat.id samples), E. reflexivity.
  - cbn [payload silent_arrival]. unfold silence.
    cbn [repeat quantize map Uint8Array_of_Int16Array flat_map int16_bytes
         app].
    destruct (flat_map int16_bytes _); reflexivity.
Qed.

Lemma silence_duration (now : Q) (samples : N) :
  duration (frame (silent_arrival now (N.to_nat samples)))
  == Z.of_N samples # 24000.
Proof.
  unfold duration. cbn [frame silent_arrival channelData sampleRate].
  rewrite repeat_length, N_nat_Z. reflexivity.
Qed.

Lemma schedule_start_times_witness :
  let frames := [ silent_arrival 10 (N.to_nat 24000);
                  silent_arrival (21 # 2) (N.to_nat 12000);
                  silent_arrival (23 # 2) (N.to_nat 48000) ] in
  let w' := run audioUtils_decode (arrivals frames) mounted in
  exists s1 s2 s3,
    startTimes (calls w') = [s1; s2; s3] /\
    s1 == 10 /\ s2 == 11 /\ s3 == 23 # 2.
Proof.
  cbv zeta.
  assert (Hframes :
    Forall (fun a => truthy (payload a) = true /\
                     audioUtils_decode (payload a) = Some (frame a))
           [ silent_arrival 10 (N.to_nat 24000);
             silent_arrival (21 # 2) (N.to_nat 12000);
             silent_arrival (23 # 2) (N.to_nat 48000) ]).
  { repeat (apply Forall_cons;
              [split; [apply silence_truthy; discriminate
                      |apply silence_decodes]|]).
    apply Forall_nil. }
  destruct (schedule_start_times audioUtils_decode _ mounted Hframes)
    as (_ & _ & H).
  destruct (H _ _ _ eq_refl) as (s1 & s2 & s3 & Hs & H1 & H2 & H3).
  - rewrite silence_duration. reflexivity.
  - rewrite silence_duration. reflexivity.
  - rewrite silence_duration. reflexivity.
  - discriminate.
  - discriminate.
  - discriminate.
  - exists s1, s2, s3. split; [exact Hs|].
    split; [exact H1|]. split; [exact H2|exact H3].
Defined.

(** ** The end-to-end scenario of the spec *)

(** The channel opens, three captured frames go out, two audio chunks come
    in, then an interruption, one more chunk, a model fragment and the
    turn-complete: one source is left scheduled (the one after the
    interruption, started at the clock reading of its message), the two
    earlier ones were stopped, and one turn was emitted. *)
Example end_to_end :
  let w := run audioUtils_decode
             [ start_click true true; open_event 3;
               audioprocess_event 0 [1 # 2];
               audioprocess_event 0 [1 # 4];
               audioprocess_event 0 [-1 # 4];
               message_event 1 (audio_message "AAAAAAAA");
               message_event 1 (audio_message "AAAAAAAA");
               message_event 2 interruption_message;
               message_event 3 (audio_message "AAAAAAAA");
               message_event 3 (model_fragment "hi");
               message_event 4 turn_complete_message ] mounted in
  sent (calls w) = [pcmBlob [1 # 2]; pcmBlob [1 # 4]; pcmBlob [-1 # 4]] /\
  sourcesRef w = [6%nat] /\
  In (source_stop 4) (calls w) /\ In (source_stop 5) (calls w) /\
  ~ In (source_stop 6) (calls w) /\
  startTimes (calls w) = [1; 1 + (3 # 24000); 3] /\
  transcriptions w = TranscriptTurn "" "hi" /\
  transcriptionRef w = no_buffers.
Proof.
  vm_compute. repeat split; auto 10.
  intros H. repeat (destruct H as [H|H]; [discriminate H|]). exact H.
Qed.

(** * Further properties of the code *)

(** ** Quantisation *)

Lemma truncate_nonneg (y : Q) : 0 <= y -> truncate y = Qfloor y.
Proof.
  destruct y as [n d]. unfold Qle, truncate, Qfloor. cbn. intros Hn.
  apply Z.quot_div_nonneg; lia.
Qed.

Lemma Qfloor_shift (y : Q) (k : Z) : Qfloor (y + inject_Z k) = (Qfloor y + k)%Z.
Proof.
  destruct y as [n d]. unfold Qfloor, Qplus, inject_Z. cbn.
  rewrite Pos.mul_1_r, Z.mul_1_r. apply Z.div_add. lia.
Qed.

(** X1 (samples out of range wrap).  Whatever the sample, the stored integer
    is in the 16-bit range and congruent modulo [2^16] to the scaled sample
    truncated toward zero: a sample beyond full scale wraps around, it does
    not saturate.  So a sample [x >= 0] and the sample [x + 2] are stored as
    the same integer. *)
Theorem quantize_wraps (x : Q) :
  int16_ok (ToInt16 (x * 32768)) /\
  ((ToInt16 (x * 32768) - truncate (x * 32768)) mod 65536 = 0)%Z /\
  (0 <= x -> quantize [x + 2] = quantize [x]).
Proof.
  split; [apply ToInt16_range|]. split.
  - unfold ToInt16. cbv zeta.
    destruct (32768 <=? truncate (x * 32768) mod 65536)%Z;
      Z.to_euclidean_division_equations; lia.
  - intros Hx. unfold quantize. cbn [map]. f_equal.
    assert (E : (x + 2) * 32768 == x * 32768 + inject_Z 65536)
      by (unfold inject_Z; ring).
    assert (H0 : 0 <= x * 32768).
    { apply Qmult_le_0_compat; [exact Hx|discriminate]. }
    assert (H1 : 0 <= (x + 2) * 32768).
    { rewrite E. apply Qle_trans with (x * 32768); [exact H0|].
      rewrite <- (Qplus_0_r (x * 32768)) at 1.
      apply Qplus_le_r. discriminate. }
    assert (T : Qfloor ((x + 2) * 32768) = (Qfloor (x * 32768) + 1 * 65536)%Z).
    { rewrite E. apply Qfloor_shift. }
    unfold ToInt16. cbv zeta.
    rewrite (truncate_nonneg _ H1), (truncate_nonneg _ H0), T.
    rewrite Z.mod_add by lia. reflexivity.
Qed.

Lemma truncate_monotone (x y : Q) : x <= y -> (truncate x <= truncate y)%Z.
Proof.
  destruct x as [n1 d1], y as [n2 d2]. unfold Qle, truncate. cbn. intros H.
  rewrite <- (Z.quot_mul_cancel_r n1 (Z.pos d1) (Z.pos d2)) by lia.
  rewrite <- (Z.quot_mul_cancel_r n2 (Z.pos d2) (Z.pos d1)) by lia.
  rewrite (Z.mul_comm (Z.pos d2) (Z.pos d1)).
  apply Z.quot_le_mono; lia.
Qed.

Lemma truncate_opp (x : Q) : truncate (- x) = (- truncate x)%Z.
Proof. destruct x as [n d]. unfold truncate. cbn. apply Z.quot_opp_l. lia. Qed.

(** X2 (order and sign inside the range).  On the open range [(-1, 1)] the
    quantisation keeps the order of the samples, and the negated sample is
    stored as the negated integer (truncation is toward zero, so it adds no
    offset). *)
Theorem quantize_order_and_sign (x y : Q) :
  -1 < x -> x <= y -> y < 1 ->
  (ToInt16 (x * 32768) <= ToInt16 (y * 32768))%Z /\
  ToInt16 (- x * 32768) = (- ToInt16 (x * 32768))%Z.
Proof.
  intros Hx Hxy Hy.
  assert (Hx1 : x < 1) by lra.
  assert (Hx0 : -1 <= x) by lra.
  assert (Hy1 : -1 <= y) by lra.
  assert (Hn1 : -1 <= - x) by lra.
  assert (Hn2 : - x < 1) by lra.
  split.
  - rewrite !ToInt16_in_range by (apply truncate_scaled; assumption).
    apply truncate_monotone. lra.
  - rewrite !ToInt16_in_range by (apply truncate_scaled; assumption).
    rewrite <- truncate_opp. destruct x as [n d]. unfold truncate. cbn.
    f_equal. lia.
Qed.

Lemma set_calls_same (w : World) : set_calls (calls w) w = w.
Proof. destruct w. reflexivity. Qed.

Lemma set_transcriptionRef_same (w : World) :
  set_transcriptionRef (transcriptionRef w) w = w.
Proof. destruct w. reflexivity. Qed.

Lemma append_empty (s : string) : (s ++ "")%string = s.
Proof. induction s as [|c s IH]; cbn; [reflexivity|rewrite IH; reflexivity]. Qed.

Lemma append_append (a b c : string) :
  ((a ++ b) ++ c)%string = (a ++ (b ++ c))%string.
Proof. induction a as [|x a IH]; cbn; [reflexivity|rewrite IH; reflexivity]. Qed.

(** X3 (capture).  The frames that a connected processor captures are
    handed to its session one blob per frame, in capture order, and capture
    writes nothing else: every ref and React state is as before. *)
Theorem capture_in_order (d : string -> option AudioBuffer) (k s : nat)
    (frames : list (list Q)) (w : World) :
  nth_error (processors w) k = Some s ->
  run d (captured k frames) w =
    set_calls (calls w ++ map (fun x => sendRealtimeInput s (pcmBlob x)) frames) w /\
  sent (calls (run d (captured k frames) w)) = sent (calls w) ++ map pcmBlob frames.
Proof.
  intros Hk.
  assert (E : run d (captured k frames) w =
              set_calls (calls w ++
                         map (fun x => sendRealtimeInput s (pcmBlob x)) frames) w).
  { revert w Hk. induction frames as [|x frames IH]; intros w Hk.
    - cbn. rewrite app_nil_r. symmetry. apply set_calls_same.
    - change (captured k (x :: frames))
        with (audioprocess_event k x :: captured k frames).
      rewrite run_cons.
      assert (Hs : step d w (audioprocess_event k x) =
                   set_calls (calls w ++ [sendRealtimeInput s (pcmBlob x)]) w).
      { unfold step, handler, bind, read. rewrite Hk. reflexivity. }
      rewrite Hs, IH by exact Hk. cbn. rewrite <- app_assoc. reflexivity. }
  split; [exact E|]. rewrite E. cbn. rewrite sent_app. f_equal.
  clear. induction frames as [|x l IH]; cbn; [reflexivity|].
  rewrite IH. reflexivity.
Qed.

Lemma step_fragment (d : string -> option AudioBuffer) (now : Q)
    (speaker : Role) (s : string) (w : World) :
  step d w (message_event now (fragment speaker s)) =
  set_transcriptionRef
    (match speaker with
     | user_role => {| user := user (transcriptionRef w) ++ s;
                       model := model (transcriptionRef w) |}
     | model_role => {| user := user (transcriptionRef w);
                        model := model (transcriptionRef w) ++ s |}
     end) w.
Proof. destruct speaker; reflexivity. Qed.

(** X4 (transcript fragments).  After any run of transcript fragments each
    buffer is what it was followed by the fragments of its speaker in
    arrival order; how the two speakers interleave does not matter, and
    nothing but the two buffers is written. *)
Theorem fragments_accumulate (d : string -> option AudioBuffer)
    (fragments : list (Q * (Role * string))) (w : World) :
  run d (said fragments) w =
  set_transcriptionRef
    {| user := user (transcriptionRef w) ++ spoken user_role fragments;
       model := model (transcriptionRef w) ++ spoken model_role fragments |} w.
Proof.
  revert w. induction fragments as [|[now [speaker s]] l IH]; intros w.
  - cbn. rewrite !append_empty. destruct w as [? ? ? ? ? ? ? [u m] ? ? ? ?].
    reflexivity.
  - change (said ((now, (speaker, s)) :: l))
      with (message_event now (fragment speaker s) :: said l).
    rewrite run_cons, step_fragment, IH.
    destruct speaker; cbn; rewrite ?append_append; reflexivity.
Qed.

Lemma stopped_app (cs cs' : list HostCall) :
  stopped (cs ++ cs') = stopped cs ++ stopped cs'.
Proof.
  induction cs as [|c cs IH]; [reflexivity|].
  destruct c; cbn; rewrite ?IH; reflexivity.
Qed.

Lemma started_app (cs cs' : list HostCall) :
  started (cs ++ cs') = started cs ++ started cs'.
Proof.
  induction cs as [|c cs IH]; [reflexivity|].
  destruct c; cbn; rewrite ?IH; reflexivity.
Qed.

Lemma stopped_stops (l : list nat) : stopped (map source_stop l) = l.
Proof. induction l as [|n l IH]; cbn; [reflexivity|rewrite IH; reflexivity]. Qed.

Lemma started_stops (l : list nat) : started (map source_stop l) = [].
Proof. induction l as [|n l IH]; cbn; [reflexivity|exact IH]. Qed.

Lemma In_Set_delete (n m : nat) (s : list nat) :
  In m (Set_delete n s) <-> In m s /\ m <> n.
Proof.
  unfold Set_delete. rewrite filter_In, negb_true_iff, Nat.eqb_neq.
  split; intros [H1 H2]; split; auto.
Qed.

(** X5 (a source that ended).  When a source ends it leaves the scheduled
    set and the other sources stay; the interruption that comes next calls
    [stop] on those others only. *)
Theorem ended_source_is_not_stopped (d : string -> option AudioBuffer)
    (n : nat) (now : Q) (w : World) :
  let w1 := step d w (ended_event n) in
  let w2 := step d w1 (message_event now interruption_message) in
  w1 = set_sourcesRef (Set_delete n (sourcesRef w)) w /\
  (forall m, In m (sourcesRef w1) <-> In m (sourcesRef w) /\ m <> n) /\
  exists l,
    stopped (calls w2) = stopped (calls w) ++ l /\
    ~ In n l /\
    (forall m, In m l <-> In m (sourcesRef w) /\ m <> n).
Proof.
  cbv zeta. split; [reflexivity|]. split.
  - intros m. apply In_Set_delete.
  - exists (Set_delete n (sourcesRef w)). split; [|split].
    + unfold step at 1. cbn [handler].
      rewrite onmessage_interruption, interrupt_world. cbn.
      rewrite stopped_app, stopped_stops. reflexivity.
    + intros H. apply In_Set_delete in H. destruct H as [_ H]. apply H.
      reflexivity.
    + intros m. apply In_Set_delete.
Qed.

(** X6 (a start that fails).  When the microphone is refused or the channel
    does not connect, [startSession] reports once (console, then alert),
    leaves [isConnecting] false and the session ref and the active flag as
    they were; the output context it created stays in [audioContextRef],
    open, and a microphone stream that was granted stays live.  The
    [stopSession] that follows closes that context; the stream it never
    stops. *)
Theorem failed_start (d : string -> option AudioBuffer)
    (microphone_granted connected : bool) (w : World) :
  (microphone_granted && connected)%bool = false ->
  let w1 := step d w (start_click microphone_granted connected) in
  let w2 := step d w1 stop_click in
  isConnecting w1 = false /\ isActive w1 = isActive w /\
  sessionRef w1 = sessionRef w /\
  audioContextRef w1 = Some (S (objects w)) /\
  calls w1 = calls w ++ [console_error; alert] /\
  processors w1 = processors w /\
  microphones w1 =
    microphones w ++ (if microphone_granted then [S (S (objects w))] else []) /\
  microphones w2 = microphones w1 /\
  calls w2 = calls w1 ++
             match sessionRef w with Some s => [session_close s] | None => [] end ++
             [audioContext_close (S (objects w))].
Proof.
  intros Hf. cbv zeta.
  assert (E : forall w', calls (step d w' stop_click) = calls w' ++ closes w'
                         /\ microphones (step d w' stop_click) = microphones w').
  { intros w'. unfold step. cbn [handler]. rewrite stopSession_world.
    split; reflexivity. }
  destruct (E (step d w (start_click microphone_granted connected)))
    as [Ec Em].
  rewrite Ec, Em.
  destruct microphone_granted, connected; try discriminate Hf; cbn;
    rewrite <- ?app_assoc, ?app_nil_r; repeat split; reflexivity.
Qed.

(** X7 (one session, start to stop).  From any world, a start that succeeds
    and the opening of its channel make no host call, leave the session
    active on the new session and output context, with one more live
    stream and one more connected processor; the stop that follows makes
    the world [Idle] and closes exactly that session and that context,
    whatever the two refs held before the start. *)
Theorem start_open_stop (d : string -> option AudioBuffer) (w : World) :
  let w1 := run d [ start_click true true; open_event (3 + objects w) ] w in
  let w2 := step d w1 stop_click in
  isActive w1 = true /\ isConnecting w1 = false /\
  sessionRef w1 = Some (3 + objects w)%nat /\
  audioContextRef w1 = Some (1 + objects w)%nat /\
  microphones w1 = microphones w ++ [(2 + objects w)%nat] /\
  processors w1 = processors w ++ [(3 + objects w)%nat] /\
  calls w1 = calls w /\
  Idle w2 /\
  calls w2 = calls w ++ [ session_close (3 + objects w);
                          audioContext_close (1 + objects w) ] /\
  microphones w2 = microphones w1 /\ processors w2 = processors w1.
Proof.
  cbv zeta. unfold step at 1 3 4. cbn [handler]. rewrite !stopSession_world.
  cbn. rewrite <- app_assoc. repeat split.
Qed.

(** X8 (a chunk that does not decode).  When the payload of an audio chunk
    cannot be decoded the handler throws after its first write: the cursor
    has been raised to the clock reading, nothing is scheduled, and the
    interruption flag, the fragments and the turn-complete flag of the same
    message are not handled. *)
Theorem undecodable_chunk (d : string -> option AudioBuffer) (now : Q)
    (base64 : string) (mime : option string) (more : list Part)
    (interrupt_flag complete_flag : bool)
    (heard answered : option Transcription) (w : World) :
  truthy base64 = true -> d base64 = None ->
  onmessage d now
    (content_only
       {| modelTurn :=
            Some {| parts :=
                      Some ({| inlineData :=
                                 Some {| data := Some base64;
                                         mimeType := mime |} |} :: more) |};
          interrupted := interrupt_flag;
          inputTranscription := heard;
          outputTranscription := answered;
          turnComplete := complete_flag |}) w =
  Throw (set_nextStartTimeRef (Qmax (nextStartTimeRef w) now) w).
Proof.
  intros Ht Hd. unfold onmessage, bind. cbn -[schedule]. rewrite Ht.
  cbn -[schedule]. rewrite (schedule_throws _ _ _ _ Hd). reflexivity.
Qed.

(** A model turn without [parts] makes the handler throw before it writes
    anything. *)
Lemma turn_without_parts (d : string -> option AudioBuffer) (now : Q)
    (interrupt_flag complete_flag : bool)
    (heard answered : option Transcription) (w : World) :
  onmessage d now
    (content_only
       {| modelTurn := Some {| parts := None |};
          interrupted := interrupt_flag;
          inputTranscription := heard;
          outputTranscription := answered;
          turnComplete := complete_flag |}) w = Throw w.
Proof. reflexivity. Qed.

Lemma onmessage_stages (d : string -> option AudioBuffer) (now : Q)
    (message : LiveServerMessage) :
  onmessage d now message =
  bind (base64Audio message)
    (fun audio =>
  bind (match audio with
        | Some base64 => when (truthy base64) (schedule d now base64)
        | None => ret tt
        end)
    (fun _ =>
  bind (when (flag interrupted message) interrupt)
    (fun _ => transcribe message))).
Proof. reflexivity. Qed.

Lemma transcribe_world (message : LiveServerMessage) (w : World) :
  let u := (user (transcriptionRef w)
            ++ added (field inputTranscription message))%string in
  let m := (model (transcriptionRef w)
            ++ added (field outputTranscription message))%string in
  transcribe message w =
  Normal tt
    (if flag turnComplete message
     then set_transcriptionRef no_buffers
            (if (truthy u || truthy m)%bool
             then set_transcriptions (transcriptions w ++ TranscriptTurn u m) w
             else w)
     else set_transcriptionRef {| user := u; model := m |} w).
Proof.
  cbv zeta. unfold transcribe, bind.
  destruct (field inputTranscription message) as [t1|],
           (field outputTranscription message) as [t2|];
    cbn [added append_user append_model write ret];
    rewrite ?append_empty;
    destruct (flag turnComplete message); cbn [when ret];
    rewrite ?flush_world; cbn;
    try (destruct (truthy _ || truthy _)%bool; reflexivity);
    destruct w as [? ? ? ? ? ? ? [u m] ? ? ? ?]; reflexivity.
Qed.

Lemma base64Audio_cases (message : LiveServerMessage) (w : World) :
  base64Audio message w = Throw w \/
  exists audio, base64Audio message w = Normal audio w.
Proof.
  unfold base64Audio.
  destruct (serverContent message) as [content|]; [|right; eexists; reflexivity].
  destruct (modelTurn content) as [turn|]; [|right; eexists; reflexivity].
  destruct (parts turn) as [[|part ps]|];
    [right; eexists; reflexivity|right; eexists; reflexivity|left; reflexivity].
Qed.

(** What the audio stage leaves when it completes: the world as it was, or
    one more source scheduled. *)
Lemma play_cases (d : string -> option AudioBuffer) (now : Q)
    (audio : option string) (w w1 : World) :
  match audio with
  | Some base64 => when (truthy base64) (schedule d now base64)
  | None => ret tt
  end w = Normal tt w1 ->
  w1 = w \/
  exists base64 buffer,
    d base64 = Some buffer /\
    w1 = set_sourcesRef (Set_add (objects w) (sourcesRef w))
           (set_nextStartTimeRef
              (Qmax (nextStartTimeRef w) now + duration buffer)
              (set_calls
                 (calls w ++
                  [source_start (objects w) (Qmax (nextStartTimeRef w) now)
                     buffer])
                 (set_objects (S (objects w)) w))).
Proof.
  destruct audio as [base64|]; [|intros H; injection H as <-; left; reflexivity].
  destruct (truthy base64); cbn [when];
    [|intros H; injection H as <-; left; reflexivity].
  destruct (d base64) as [buffer|] eqn:Hd.
  - rewrite (schedule_world _ _ _ _ _ Hd). intros H. injection H as <-.
    right. exists base64, buffer. split; [exact Hd|reflexivity].
  - rewrite (schedule_throws _ _ _ _ Hd). discriminate.
Qed.

Lemma In_Set_add (n m : nat) (s : list nat) :
  In m (Set_add n s) <-> In m s \/ m = n.
Proof.
  unfold Set_add. destruct (existsb (Nat.eqb n) s) eqn:E.
  - split; [intros H; left; exact H|]. intros [H| ->]; [exact H|].
    apply existsb_exists in E. destruct E as (x & Hx & Ex).
    apply Nat.eqb_eq in Ex. subst. exact Hx.
  - rewrite in_app_iff. cbn. split; intros [H|H]; auto.
    destruct H as [H|[]]. right. symmetry. exact H.
Qed.

Lemma transcribe_keeps (message : LiveServerMessage) (w : World) :
  exists w',
    transcribe message w = Normal tt w' /\
    sourcesRef w' = sourcesRef w /\
    nextStartTimeRef w' = nextStartTimeRef w /\
    calls w' = calls w /\ objects w' = objects w /\
    same_connection w w'.
Proof.
  eexists. split; [apply transcribe_world|]. cbv zeta.
  destruct (flag turnComplete message);
    [destruct (truthy _ || truthy _)%bool|]; repeat split.
Qed.

(** X9 (interruption, whatever else the message carries).  Whenever a
    message with the interruption flag is handled to its end, the scheduled
    set is empty and the cursor zero afterwards; every source that was in
    the set has been stopped, and so has the source of the audio chunk of
    that very message. *)
Theorem interrupted_message_empties (d : string -> option AudioBuffer)
    (now : Q) (message : LiveServerMessage) (w w1 : World) :
  flag interrupted message = true ->
  onmessage d now message w = Normal tt w1 ->
  sourcesRef w1 = [] /\ nextStartTimeRef w1 = 0 /\
  (forall n, In n (sourcesRef w) -> In n (stopped (calls w1))) /\
  (forall n, In n (started (calls w1)) ->
     In n (started (calls w)) \/ In n (stopped (calls w1))).
Proof.
  intros Hi. rewrite onmessage_stages, Hi. unfold bind at 1.
  destruct (base64Audio_cases message w) as [E|[audio E]]; rewrite E;
    [discriminate|].
  unfold bind at 1.
  destruct (match audio with
            | Some base64 => when (truthy base64) (schedule d now base64)
            | None => ret tt
            end w) as [[] wa|wa] eqn:Ea; [|discriminate].
  unfold bind at 1. cbn [when]. rewrite interrupt_world.
  match goal with |- transcribe message ?wi = _ -> _ =>
    destruct (transcribe_keeps message wi) as (w' & Et & Hs & Hc & Hk & _ & _)
  end.
  rewrite Et. intros H. injection H as <-. rewrite Hs, Hc, Hk. cbn.
  rewrite stopped_app, started_app, stopped_stops, started_stops, app_nil_r.
  split; [reflexivity|]. split; [reflexivity|].
  apply play_cases in Ea. destruct Ea as [Ew|(b & buf & _ & Ew)]; subst wa; cbn.
  - split; intros n Hn; [apply in_or_app; right; exact Hn|left; exact Hn].
  - rewrite started_app, stopped_app. cbn. split; intros n Hn.
    + apply in_or_app. right. apply In_Set_add. left. exact Hn.
    + apply in_app_or in Hn. destruct Hn as [Hn|[<-|[]]]; [left; exact Hn|].
      right. apply in_or_app. right. apply In_Set_add. right. reflexivity.
Qed.

Lemma same_connection_refl (w : World) : same_connection w w.
Proof. repeat split. Qed.

Lemma same_connection_trans (w1 w2 w3 : World) :
  same_connection w1 w2 -> same_connection w2 w3 -> same_connection w1 w3.
Proof.
  unfold same_connection.
  intros (A1 & A2 & A3 & A4 & A5 & A6 & A7) (B1 & B2 & B3 & B4 & B5 & B6 & B7).
  repeat split; congruence.
Qed.

Lemma sent_stops (l : list nat) : sent (map source_stop l) = [].
Proof. induction l as [|n l IH]; cbn; [reflexivity|exact IH]. Qed.

(** X10 (messages leave the connection alone).  However a message is made
    and however its handler completes, it writes neither of the React
    flags, neither [sessionRef] nor [audioContextRef], nothing of the
    capture side, and sends nothing on the channel. *)
Theorem message_keeps_connection (d : string -> option AudioBuffer)
    (now : Q) (message : LiveServerMessage) (w : World) :
  same_connection w (world_of (onmessage d now message w)).
Proof.
  revert w.
  apply (respects_onmessage same_connection same_connection_refl
           same_connection_trans).
  - intros base64 w. destruct (d base64) as [buffer|] eqn:Hd.
    + rewrite (schedule_world _ _ _ _ _ Hd). unfold same_connection. cbn.
      rewrite sent_app, app_nil_r. repeat split.
    + rewrite (schedule_throws _ _ _ _ Hd). repeat split.
  - apply respects_when; [apply same_connection_refl|].
    intros w. rewrite interrupt_world. unfold same_connection. cbn.
    rewrite sent_app, sent_stops, app_nil_r. repeat split.
  - intros t w. repeat split.
  - intros t w. repeat split.
  - intros w. rewrite flush_world. cbv zeta.
    destruct (truthy _ || truthy _)%bool; repeat split.
Qed.

(** X11 (fragments on the turn-complete message).  A message without audio
    that carries the turn-complete flag first appends its own fragments,
    then emits the turn: the entry pair holds the buffers with those
    fragments at their end, and both buffers are empty afterwards. *)
Theorem turn_includes_own_fragments (d : string -> option AudioBuffer)
    (now : Q) (content : LiveServerContent) (w : World) :
  modelTurn content = None -> turnComplete content = true ->
  let u := (user (transcriptionRef w)
            ++ added (inputTranscription content))%string in
  let m := (model (transcriptionRef w)
            ++ added (outputTranscription content))%string in
  exists w1,
    onmessage d now (content_only content) w = Normal tt w1 /\
    transcriptionRef w1 = no_buffers /\
    transcriptions w1 =
      transcriptions w ++
      (if (truthy u || truthy m)%bool then TranscriptTurn u m else []).
Proof.
  intros Hm Hc. cbv zeta. rewrite onmessage_stages. unfold bind at 1.
  unfold base64Audio. cbn [content_only serverContent]. rewrite Hm.
  cbn [ret]. unfold bind at 1. cbn [ret]. unfold bind at 1.
  assert (Hw : exists wi,
             when (flag interrupted (content_only content)) interrupt w
             = Normal tt wi /\
             transcriptionRef wi = transcriptionRef w /\
             transcriptions wi = transcriptions w).
  { destruct (flag interrupted (content_only content)); cbn [when].
    - rewrite interrupt_world. eexists. repeat split.
    - exists w. repeat split. }
  destruct Hw as (wi & Ei & Hr & Ht). rewrite Ei, transcribe_world.
  cbv zeta. unfold flag, field. cbn [content_only serverContent].
  rewrite Hc, Hr, Ht. eexists. split; [reflexivity|].
  destruct (truthy _ || truthy _)%bool; cbn; rewrite ?Ht, ?app_nil_r;
    split; reflexivity.
Qed.

Lemma run_respects (d : string -> option AudioBuffer)
    (R : World -> World -> Prop) :
  (forall w, R w w) ->
  (forall w1 w2 w3, R w1 w2 -> R w2 w3 -> R w1 w3) ->
  (forall e, respects R (handler d e)) ->
  forall events w, R w (run d events w).
Proof.
  intros Hrefl Htrans Hh events. induction events as [|e events IH]; intros w.
  - apply Hrefl.
  - rewrite run_cons. eapply Htrans; [apply (Hh e w)|apply IH].
Qed.

(** A relation that holds whenever three fields are left alone holds across
    every event but a message. *)
Lemma quiet_events (d : string -> option AudioBuffer)
    (R : World -> World -> Prop) :
  (forall w w', sourcesRef w' = sourcesRef w ->
                transcriptions w' = transcriptions w ->
                started (calls w') = started (calls w) ->
                stopped (calls w') = stopped (calls w) ->
                (objects w <= objects w')%nat -> R w w') ->
  forall e, (forall now message, e <> message_event now message) ->
            (forall n, e <> ended_event n) ->
            respects R (handler d e).
Proof.
  intros HR e Hm He w.
  destruct e as [mic con| |s|now message|k x|n| |]; cbn [handler].
  - destruct mic, con; apply HR; cbn;
      rewrite ?started_app, ?stopped_app, ?app_nil_r; auto; lia.
  - rewrite stopSession_world. apply HR; cbn;
      rewrite ?started_app, ?stopped_app; auto;
      unfold closes; destruct (sessionRef w), (audioContextRef w); cbn;
      rewrite ?app_nil_r; reflexivity.
  - apply HR; cbn; auto.
  - exfalso. exact (Hm now message eq_refl).
  - unfold bind, read. destruct (nth_error (processors w) k); apply HR; cbn;
      rewrite ?started_app, ?stopped_app, ?app_nil_r; auto.
  - exfalso. exact (He n eq_refl).
  - apply HR; cbn; rewrite ?started_app, ?stopped_app, ?app_nil_r; auto.
  - unfold onclose. rewrite stopSession_world. apply HR; cbn;
      rewrite ?started_app, ?stopped_app; auto;
      unfold closes; destruct (sessionRef w), (audioContextRef w); cbn;
      rewrite ?app_nil_r; reflexivity.
Qed.

Lemma whole_turns_app (a b : list Entry) :
  whole_turns a -> whole_turns b -> whole_turns (a ++ b).
Proof.
  intros Ha Hb. induction Hb as [|l u m _ IH H].
  - rewrite app_nil_r. exact Ha.
  - rewrite app_assoc. apply one_more_turn; assumption.
Qed.

Lemma grows_refl (w : World) : grows_by_turns w w.
Proof. exists []. rewrite app_nil_r. split; [reflexivity|constructor]. Qed.

Lemma grows_trans (w1 w2 w3 : World) :
  grows_by_turns w1 w2 -> grows_by_turns w2 w3 -> grows_by_turns w1 w3.
Proof.
  intros (t1 & E1 & H1) (t2 & E2 & H2). exists (t1 ++ t2).
  rewrite E2, E1, app_assoc. split; [reflexivity|].
  apply whole_turns_app; assumption.
Qed.

Lemma grows_same (w w' : World) :
  transcriptions w' = transcriptions w -> grows_by_turns w w'.
Proof.
  intros E. exists []. rewrite app_nil_r. split; [exact E|constructor].
Qed.

Lemma handler_grows (d : string -> option AudioBuffer) (e : Event) :
  respects grows_by_turns (handler d e).
Proof.
  destruct e as [mic con| |s|now message|k x|n| |];
    try (apply quiet_events; [intros; apply grows_same; assumption
                             |discriminate|discriminate]).
  - cbn [handler].
    apply (respects_onmessage grows_by_turns grows_refl grows_trans).
    + intros base64 w. apply grows_same.
      destruct (d base64) as [buffer|] eqn:Hd;
        [rewrite (schedule_world _ _ _ _ _ Hd)
        |rewrite (schedule_throws _ _ _ _ Hd)]; reflexivity.
    + apply respects_when; [apply grows_refl|].
      intros w. apply grows_same. rewrite interrupt_world. reflexivity.
    + intros t w. apply grows_same. reflexivity.
    + intros t w. apply grows_same. reflexivity.
    + intros w. rewrite flush_world. cbv zeta.
      destruct (truthy _ || truthy _)%bool eqn:E.
      * eexists. split; [reflexivity|].
        apply (one_more_turn [] _ _ no_turn). apply either_truthy. exact E.
      * apply grows_same. reflexivity.
  - intros w. apply grows_same. reflexivity.
Qed.

(** X12 (the history).  No event shortens or rewrites the history: across
    any run of events it grows by whole turns, each a user entry followed
    by a model entry that are not both empty.  From the mounted component
    the history is therefore always made of such turns. *)
Theorem history_grows_by_whole_turns (d : string -> option AudioBuffer)
    (events : list Event) (w : World) :
  (exists turns,
     transcriptions (run d events w) = transcriptions w ++ turns /\
     whole_turns turns) /\
  whole_turns (transcriptions (run d events mounted)).
Proof.
  split.
  - apply (run_respects d grows_by_turns grows_refl grows_trans
             (handler_grows d)).
  - destruct (run_respects d grows_by_turns grows_refl grows_trans
                (handler_grows d) events mounted) as (turns & E & H).
    rewrite E. exact H.
Qed.

Lemma scheduled_ok_quiet (w w' : World) :
  sourcesRef w' = sourcesRef w ->
  started (calls w') = started (calls w) ->
  stopped (calls w') = stopped (calls w) ->
  (objects w <= objects w')%nat ->
  keeps_scheduled_ok w w'.
Proof.
  intros Es Ea Eo Hle (H1 & H2 & H3 & H4 & H5).
  unfold scheduled_ok. rewrite Es, Ea, Eo.
  repeat split; auto.
  - apply H3; assumption.
  - apply H3; assumption.
  - intros n Hn. specialize (H4 n Hn). lia.
  - intros n Hn. specialize (H5 n Hn). lia.
Qed.

Lemma scheduled_ok_schedule (w : World) (t c : Q) (buffer : AudioBuffer) :
  keeps_scheduled_ok w
    (set_sourcesRef (Set_add (objects w) (sourcesRef w))
       (set_nextStartTimeRef c
          (set_calls (calls w ++ [source_start (objects w) t buffer])
             (set_objects (S (objects w)) w)))).
Proof.
  intros (H1 & H2 & H3 & H4 & H5).
  assert (Hfresh : ~ In (objects w) (started (calls w))).
  { intros H. specialize (H4 _ H). lia. }
  assert (Hnew : ~ In (objects w) (sourcesRef w)).
  { intros H. apply Hfresh. apply H3. exact H. }
  assert (Eadd : Set_add (objects w) (sourcesRef w)
                 = sourcesRef w ++ [objects w]).
  { unfold Set_add. destruct (existsb (Nat.eqb (objects w)) (sourcesRef w)) eqn:E;
      [|reflexivity].
    exfalso. apply Hnew. apply existsb_exists in E.
    destruct E as (x & Hx & Ex). apply Nat.eqb_eq in Ex. subst. exact Hx. }
  unfold scheduled_ok. cbn. rewrite Eadd, started_app, stopped_app. cbn.
  rewrite app_nil_r. repeat split.
  - apply NoDup_rev in H1. rewrite <- (rev_involutive (sourcesRef w ++ _)).
    apply NoDup_rev. rewrite rev_app_distr. cbn. constructor;
      [rewrite <- in_rev; exact Hnew|exact H1].
  - rewrite <- (rev_involutive (started (calls w) ++ _)).
    apply NoDup_rev. rewrite rev_app_distr. cbn. constructor;
      [rewrite <- in_rev; exact Hfresh|apply NoDup_rev; exact H2].
  - apply in_app_or in H. apply in_or_app.
    destruct H as [H|H]; [left; apply H3; exact H|right; exact H].
  - intros Hs. apply in_app_or in H. destruct H as [H|[<-|[]]].
    + apply (H3 _ H). exact Hs.
    + specialize (H5 _ Hs). lia.
  - intros n Hn. apply in_app_or in Hn. destruct Hn as [Hn|[<-|[]]];
      [specialize (H4 _ Hn)|]; lia.
  - intros n Hn. specialize (H5 _ Hn). lia.
Qed.

Lemma keeps_scheduled_ok_trans (w1 w2 w3 : World) :
  keeps_scheduled_ok w1 w2 -> keeps_scheduled_ok w2 w3 ->
  keeps_scheduled_ok w1 w3.
Proof. unfold keeps_scheduled_ok. auto. Qed.

Lemma handler_keeps_scheduled_ok (d : string -> option AudioBuffer)
    (e : Event) : respects keeps_scheduled_ok (handler d e).
Proof.
  destruct e as [mic con| |s|now message|k x|n| |];
    try (apply quiet_events; [intros; apply scheduled_ok_quiet; assumption
                             |discriminate|discriminate]).
  - cbn [handler].
    apply (respects_onmessage keeps_scheduled_ok (fun w H => H)
             keeps_scheduled_ok_trans).
    + intros base64 w. destruct (d base64) as [buffer|] eqn:Hd.
      * rewrite (schedule_world _ _ _ _ _ Hd). apply scheduled_ok_schedule.
      * rewrite (schedule_throws _ _ _ _ Hd).
        apply scheduled_ok_quiet; cbn; auto.
    + apply respects_when; [intros w H; exact H|].
      intros w (H1 & H2 & H3 & H4 & H5). rewrite interrupt_world.
      unfold scheduled_ok. cbn.
      rewrite started_app, stopped_app, started_stops, stopped_stops,
        app_nil_r.
      repeat split; auto; try contradiction.
      * constructor.
      * intros n Hn. apply in_app_or in Hn. destruct Hn as [Hn|Hn];
          [apply H5; exact Hn|apply H4, H3; exact Hn].
    + intros t w. apply scheduled_ok_quiet; cbn; auto.
    + intros t w. apply scheduled_ok_quiet; cbn; auto.
    + intros w. rewrite flush_world. cbv zeta.
      destruct (truthy _ || truthy _)%bool; apply scheduled_ok_quiet; cbn; auto.
  - intros w (H1 & H2 & H3 & H4 & H5). unfold scheduled_ok. cbn.
    repeat split; auto.
    + apply NoDup_filter. exact H1.
    + apply H3. apply In_Set_delete in H. apply H.
    + apply H3. apply In_Set_delete in H. apply H.
Qed.

(** X13 (the scheduled set).  In every world reached from the mounted
    component the scheduled set holds no source twice, and only sources
    that were started and never stopped; no source is ever started
    twice. *)
Theorem scheduled_set_invariant (d : string -> option AudioBuffer)
    (events : list Event) :
  scheduled_ok (run d events mounted).
Proof.
  apply (run_respects d keeps_scheduled_ok (fun w H => H)
           keeps_scheduled_ok_trans (handler_keeps_scheduled_ok d)
           events mounted).
  unfold scheduled_ok. cbn. repeat split; try contradiction; constructor.
Qed.

(** ** Playback never overlaps *)

Lemma spec_startTimes_no_overlap (frames : list Arrival) :
  forall cursor, no_overlap cursor frames (spec_startTimes cursor frames).
Proof.
  induction frames as [|a frames IH]; intros cursor; cbn; [exact I|].
  split; [apply Q.le_max_l|]. split; [apply Q.le_max_r|apply IH].
Qed.

(** X18 (no overlap, whenever the chunks arrive).  For any run of decodable
    audio chunks, on time or late, each source starts at or after the end
    of the buffer before it (the first one at or after the cursor), and at
    or after the clock reading of its own message. *)
Theorem playback_never_overlaps (d : string -> option AudioBuffer)
    (frames : list Arrival) (w : World) :
  Forall (fun a => truthy (payload a) = true /\ d (payload a) = Some (frame a))
         frames ->
  exists starts,
    startTimes (calls (run d (arrivals frames) w))
      = startTimes (calls w) ++ starts /\
    no_overlap (nextStartTimeRef w) frames starts.
Proof.
  intros Hframes. eexists. split.
  - apply (run_arrivals d frames Hframes w).
  - apply spec_startTimes_no_overlap.
Qed.

Lemma playback_never_overlaps_witness :
  let frames := [ silent_arrival 10 (N.to_nat 24000);
                  silent_arrival 30 (N.to_nat 12000) ] in
  exists starts,
    startTimes (calls (run audioUtils_decode (arrivals frames) mounted))
      = starts /\
    no_overlap 0 frames starts.
Proof.
  cbv zeta.
  assert (Hframes :
    Forall (fun a => truthy (payload a) = true /\
                     audioUtils_decode (payload a) = Some (frame a))
           [ silent_arrival 10 (N.to_nat 24000);
             silent_arrival 30 (N.to_nat 12000) ]).
  { repeat (apply Forall_cons;
              [split; [apply silence_truthy; discriminate
                      |apply silence_decodes]|]).
    apply Forall_nil. }
  destruct (playback_never_overlaps audioUtils_decode _ mounted Hframes)
    as (starts & Hs & Hno).
  exists starts. split; [exact Hs|exact Hno].
Defined.

Lemma run_on_time_witness :
  let frames := [ silent_arrival 10 (N.to_nat 24000);
                  silent_arrival (21 # 2) (N.to_nat 12000);
                  silent_arrival 11 (N.to_nat 48000);
                  silent_arrival 13 (N.to_nat 24000) ] in
  let w := set_nextStartTimeRef 10 mounted in
  exists ts,
    startTimes (calls (run audioUtils_decode (arrivals frames) w)) = ts /\
    Forall2 Qeq ts (gapless 10 frames).
Proof.
  cbv zeta.
  assert (Hframes :
    Forall (fun a => truthy (payload a) = true /\
                     audioUtils_decode (payload a) = Some (frame a))
           [ silent_arrival 10 (N.to_nat 24000);
             silent_arrival (21 # 2) (N.to_nat 12000);
             silent_arrival 11 (N.to_nat 48000);
             silent_arrival 13 (N.to_nat 24000) ]).
  { repeat (apply Forall_cons;
              [split; [apply silence_truthy; discriminate
                      |apply silence_decodes]|]).
    apply Forall_nil. }
  assert (Hon : on_time (nextStartTimeRef (set_nextStartTimeRef 10 mounted))
                  [ silent_arrival 10 (N.to_nat 24000);
                    silent_arrival (21 # 2) (N.to_nat 12000);
                    silent_arrival 11 (N.to_nat 48000);
                    silent_arrival 13 (N.to_nat 24000) ]).
  { cbn [on_time nextStartTimeRef set_nextStartTimeRef clockNow
         silent_arrival].
    rewrite !silence_duration. repeat split; discriminate. }
  destruct (run_on_time audioUtils_decode _ _ Hframes Hon)
    as (ts & Hs & Hg).
  exists ts. split; [exact Hs|exact Hg].
Defined.

(** ** Witnesses *)

Lemma quantize_wraps_witness :
  0 <= 1 # 2 /\ quantize [(1 # 2) + 2] = [16384%Z] /\
  quantize [1 # 2] = [16384%Z].
Proof.
  split; [discriminate|].
  destruct (quantize_wraps (1 # 2)) as (_ & _ & H).
  split; [rewrite H; [reflexivity|discriminate]|reflexivity].
Defined.

Lemma quantize_order_and_sign_witness :
  (ToInt16 ((-1 # 2) * 32768) <= ToInt16 ((1 # 4) * 32768))%Z /\
  ToInt16 (- (-1 # 2) * 32768) = (- ToInt16 ((-1 # 2) * 32768))%Z.
Proof.
  apply (quantize_order_and_sign (-1 # 2) (1 # 4));
    [reflexivity|discriminate|reflexivity].
Defined.

Lemma capture_in_order_witness :
  let w := run audioUtils_decode [start_click true true; open_event 3]
             mounted in
  nth_error (processors w) 0 = Some 3%nat /\
  sent (calls (run audioUtils_decode
                 (captured 0 [[1 # 2]; [1 # 4; -1 # 4]; []]) w)) =
  [pcmBlob [1 # 2]; pcmBlob [1 # 4; -1 # 4]; pcmBlob []].
Proof.
  cbv zeta. split; [reflexivity|].
  rewrite (proj2 (capture_in_order audioUtils_decode 0 3
                    [[1 # 2]; [1 # 4; -1 # 4]; []]
                    (run audioUtils_decode
                       [start_click true true; open_event 3] mounted)
                    eq_refl)).
  reflexivity.
Defined.

Lemma failed_start_witness :
  let w1 := step audioUtils_decode mounted (start_click true false) in
  let w2 := step audioUtils_decode w1 stop_click in
  (true && false)%bool = false /\
  audioContextRef w1 = Some 1%nat /\ microphones w1 = [2%nat] /\
  calls w1 = [console_error; alert] /\
  microphones w2 = [2%nat] /\
  calls w2 = [console_error; alert; audioContext_close 1].
Proof.
  cbv zeta. split; [reflexivity|].
  destruct (failed_start audioUtils_decode true false mounted eq_refl)
    as (_ & _ & _ & H4 & H5 & _ & H7 & H8 & H9).
  split; [exact H4|]. split; [exact H7|]. split; [exact H5|].
  split; [rewrite H8; exact H7|]. rewrite H9, H5. reflexivity.
Defined.

(** The payload ["AAAA"] is three bytes, which is no whole number of 16-bit
    samples. *)
Lemma undecodable_chunk_witness :
  truthy "AAAA" = true /\ audioUtils_decode "AAAA" = None /\
  onmessage audioUtils_decode 5
    (content_only
       {| modelTurn :=
            Some {| parts :=
                      Some [ {| inlineData :=
                                  Some {| data := Some "AAAA"%string;
                                          mimeType := None |} |} ] |};
          interrupted := true;
          inputTranscription := Some {| Msg.text := Some "hel"%string |};
          outputTranscription := None;
          turnComplete := true |})
    (set_sourcesRef [7%nat] mounted) =
  Throw (set_nextStartTimeRef (Qmax 0 5) (set_sourcesRef [7%nat] mounted)).
Proof.
  split; [reflexivity|]. split; [reflexivity|].
  apply undecodable_chunk; reflexivity.
Defined.

Lemma interrupted_message_empties_witness :
  let message :=
    content_only
      {| modelTurn :=
           Some {| parts :=
                     Some [ {| inlineData :=
                                 Some {| data := Some "AAAAAAAA"%string;
                                         mimeType := None |} |} ] |};
         interrupted := true;
         inputTranscription := None;
         outputTranscription := None;
         turnComplete := false |} in
  let w := run audioUtils_decode
             [message_event 1 (audio_message "AAAAAAAA")] mounted in
  exists w1,
    flag interrupted message = true /\
    onmessage audioUtils_decode 2 message w = Normal tt w1 /\
    sourcesRef w = [0%nat] /\ sourcesRef w1 = [] /\
    In 0%nat (stopped (calls w1)).
Proof.
  intros message w.
  assert (Hi : flag interrupted message = true) by reflexivity.
  destruct (onmessage audioUtils_decode 2 message w) as [[] w1|w1] eqn:E;
    [|discriminate E].
  exists w1. split; [exact Hi|]. split; [reflexivity|].
  split; [reflexivity|].
  destruct (interrupted_message_empties audioUtils_decode 2 message w w1
              Hi E) as (H1 & _ & H3 & _).
  split; [exact H1|]. apply H3. left. reflexivity.
Defined.

Lemma turn_includes_own_fragments_witness :
  let content :=
    {| modelTurn := None; interrupted := false;
       inputTranscription := None;
       outputTranscription := Some {| Msg.text := Some "hi"%string |};
       turnComplete := true |} in
  modelTurn content = None /\ turnComplete content = true /\
  exists w1,
    onmessage audioUtils_decode 0 (content_only content) mounted
      = Normal tt w1 /\
    transcriptions w1 = TranscriptTurn "" "hi".
Proof.
  cbv zeta. split; [reflexivity|]. split; [reflexivity|].
  destruct (turn_includes_own_fragments audioUtils_decode 0
              {| modelTurn := None; interrupted := false;
                 inputTranscription := None;
                 outputTranscription := Some {| Msg.text := Some "hi"%string |};
                 turnComplete := true |} mounted eq_refl eq_refl)
    as (w1 & H1 & _ & H3).
  exists w1. split; [exact H1|]. rewrite H3. reflexivity.
Defined.

(** ** Video generation *)

Module VideoFacts.

Import Video.
Local Open Scope string_scope.

Lemma poll_done (i : nat) (uri : option string) (replies : list Reply) :
  poll i true uri replies = ([], 0%nat, ready uri).
Proof. destruct replies; reflexivity. Qed.

(** The loop over replies that are not done, up to the first decisive one:
    one status message and one poll for each reply that was not done. *)
Lemma poll_not_done (waits : list (option string)) (final : Reply)
    (rest : list Reply) :
  decisive final = true ->
  forall i u,
    poll i false u (not_done waits ++ final :: rest) =
    (map (fun j => nth (j mod 5) loadingMessages "")
         (seq i (S (List.length waits))),
     S (List.length waits), ends final).
Proof.
  intros Hfinal.
  induction waits as [|u0 waits IH]; intros i u.
  - cbn [not_done map app List.length]. destruct final as [error|[|] uri];
      [reflexivity| |discriminate Hfinal].
    cbn [poll]. rewrite poll_done. reflexivity.
  - cbn [not_done map app List.length]. cbn [poll].
    change (map (operation false) waits) with (not_done waits).
    rewrite IH. reflexivity.
Qed.

Lemma run_of_replies (API_KEY : string) (now : Z)
    (waits : list (option string)) (final : Reply) (rest : list Reply)
    (s : State) :
  blank (prompt s) = false -> isGenerating s = false ->
  decisive final = true ->
  handleGenerate API_KEY now (not_done waits ++ final :: rest) s =
  let first := "Initializing Veo engine..." in
  let made := generateVideos (prompt s)
              :: repeat getVideosOperation (List.length waits) in
  let messages := (first :: cycle (List.length waits))%list in
  match ends final with
  | ready downloadLink =>
      if truthy downloadLink then
        {| state :=
             {| prompt := prompt s; isGenerating := false; hasKey := hasKey s;
                results :=
                  {| Types.url := shown_as downloadLink ++ "&key=" ++ API_KEY;
                     Types.prompt := prompt s; Types.timestamp := now;
                     Types.status := Types.completed |} :: results s;
                statusMessage := "" |};
           calls := made; shown := (messages ++ [""])%list; settled := true |}
      else caught (Some "No video URI returned") s made messages
  | thrown error => caught error s made messages
  | waiting => caught None s made messages
  end.
Proof.
  intros Hb Hg Hfinal. unfold handleGenerate. rewrite Hb, Hg. cbn [orb].
  destruct waits as [|u0 waits].
  - cbn [not_done map app List.length repeat cycle seq].
    destruct final as [error|[|] uri];
      [reflexivity| |discriminate Hfinal].
    rewrite poll_done. cbn [ends]. destruct (truthy uri); reflexivity.
  - cbn [not_done map app].
    change (map (operation false) waits) with (not_done waits).
    rewrite (poll_not_done waits final rest Hfinal). cbv zeta.
    cbn [List.length repeat].
    change (map (fun j => nth (j mod 5) loadingMessages "")
                (seq 0 (S (List.length waits))))
      with (cycle (S (List.length waits))).
    destruct final as [error|dn uri]; cbn [ends]; [reflexivity|].
    destruct (truthy uri); reflexivity.
Qed.

(** X14 (a generation that succeeds).  With a prompt that is not blank and
    no generation under way, when the service answers [n] times that the
    operation is not done and then that it is done with a download link,
    [handleGenerate] asks once for the generation and [n] times for the
    operation, shows the first message, then the five loading messages in
    rotation, one per poll, then clears the status; it ends with the
    generating flag off and one result in front of the others, holding the
    link followed by the key, the prompt and the date.  It raises no alert
    and leaves [hasKey] alone, and later replies are not read. *)
Theorem generate_success (API_KEY uri : string) (now : Z)
    (waits : list (option string)) (rest : list Reply) (s : State) :
  blank (prompt s) = false -> isGenerating s = false -> uri <> "" ->
  handleGenerate API_KEY now
    (not_done waits ++ operation true (Some uri) :: rest) s =
  {| state :=
       {| prompt := prompt s; isGenerating := false; hasKey := hasKey s;
          results :=
            {| Types.url := uri ++ "&key=" ++ API_KEY;
               Types.prompt := prompt s; Types.timestamp := now;
               Types.status := Types.completed |} :: results s;
          statusMessage := "" |};
     calls := generateVideos (prompt s)
              :: repeat getVideosOperation (List.length waits);
     shown := ("Initializing Veo engine..." :: cycle (List.length waits)
               ++ [""])%list;
     settled := true |}.
Proof.
  intros Hb Hg Hu.
  rewrite (run_of_replies API_KEY now waits (operation true (Some uri)) rest s
             Hb Hg eq_refl).
  cbv zeta. cbn [ends]. destruct uri as [|c uri]; [contradiction Hu; reflexivity|].
  reflexivity.
Qed.

Lemma generate_success_witness :
  let s := {| prompt := " a drone shot "; isGenerating := false;
              hasKey := true; results := []; statusMessage := "" |} in
  let r := handleGenerate "K" 7
             (not_done [None; None; None; None; None; None]
              ++ [operation true (Some "https://v/1?x=1")]) s in
  blank (prompt s) = false /\
  results (state r) =
    [ {| Types.url := "https://v/1?x=1&key=K";
         Types.prompt := " a drone shot "; Types.timestamp := 7;
         Types.status := Types.completed |} ] /\
  nth 1 (shown r) "" = nth 6 (shown r) "" /\
  List.length (calls r) = 7%nat.
Proof.
  cbv zeta. split; [reflexivity|].
  rewrite (generate_success "K" "https://v/1?x=1" 7
             [None; None; None; None; None; None] []
             {| prompt := " a drone shot "; isGenerating := false;
                hasKey := true; results := []; statusMessage := "" |}
             eq_refl eq_refl);
    [|discriminate].
  repeat split.
Defined.

(** X15 (a generation that is rejected).  When a request is rejected, at
    the start or after [n] answers that the operation is not done,
    [handleGenerate] logs and raises exactly one alert, adds no result and
    ends with the generating flag off and the status cleared.  It turns
    [hasKey] off, with the alert about the expired key, exactly when the
    error has a message that includes "Requested entity was not found";
    otherwise [hasKey] is as before and the alert quotes the message, or
    "Unknown error" when there is none. *)
Theorem generate_rejected (API_KEY : string) (now : Z)
    (error : option string) (waits : list (option string))
    (rest : list Reply) (s : State) :
  blank (prompt s) = false -> isGenerating s = false ->
  let expired :=
    match error with
    | Some message => includes "Requested entity was not found" message
    | None => false
    end in
  handleGenerate API_KEY now (not_done waits ++ rejects error :: rest) s =
  {| state :=
       {| prompt := prompt s; isGenerating := false;
          hasKey := if expired then false else hasKey s;
          results := results s; statusMessage := "" |};
     calls :=
       (generateVideos (prompt s)
        :: repeat getVideosOperation (List.length waits)
        ++ [ console_error;
             alert (if expired
                    then "API Key expired or invalid. Please select again."
                    else "Error generating video: " ++
                         match error with
                         | Some (String c message) => String c message
                         | _ => "Unknown error"
                         end) ])%list;
     shown := ("Initializing Veo engine..." :: cycle (List.length waits)
               ++ [""])%list;
     settled := true |}.
Proof.
  intros Hb Hg.
  rewrite (run_of_replies API_KEY now waits (rejects error) rest s
             Hb Hg eq_refl).
  cbv zeta. cbn [ends]. unfold caught. cbn [app].
  destruct error as [[|c message]|]; reflexivity.
Qed.

Lemma generate_rejected_witness :
  let s := {| prompt := "a cat"; isGenerating := false; hasKey := true;
              results := []; statusMessage := "" |} in
  let r := handleGenerate "K" 7
             (not_done [None]
              ++ [rejects (Some "404: Requested entity was not found.")]) s in
  blank (prompt s) = false /\
  hasKey (state r) = false /\ results (state r) = [] /\
  calls r = [ generateVideos "a cat"; getVideosOperation; console_error;
              alert "API Key expired or invalid. Please select again." ].
Proof.
  cbv zeta. split; [reflexivity|].
  rewrite (generate_rejected "K" 7
             (Some "404: Requested entity was not found.") [None] []
             {| prompt := "a cat"; isGenerating := false; hasKey := true;
                results := []; statusMessage := "" |} eq_refl eq_refl).
  repeat split.
Defined.

(** X16 (done, but no video).  When the operation is done without a
    download link (none, or an empty one), [handleGenerate] adds no result,
    leaves [hasKey] alone and raises the one alert "Error generating
    video: No video URI returned". *)
Theorem generate_without_uri (API_KEY : string) (now : Z)
    (uri : option string) (waits : list (option string))
    (rest : list Reply) (s : State) :
  blank (prompt s) = false -> isGenerating s = false ->
  uri = None \/ uri = Some "" ->
  handleGenerate API_KEY now (not_done waits ++ operation true uri :: rest) s =
  {| state :=
       {| prompt := prompt s; isGenerating := false; hasKey := hasKey s;
          results := results s; statusMessage := "" |};
     calls :=
       (generateVideos (prompt s)
        :: repeat getVideosOperation (List.length waits)
        ++ [ console_error;
             alert "Error generating video: No video URI returned" ])%list;
     shown := ("Initializing Veo engine..." :: cycle (List.length waits)
               ++ [""])%list;
     settled := true |}.
Proof.
  intros Hb Hg Hu.
  rewrite (run_of_replies API_KEY now waits (operation true uri) rest s
             Hb Hg eq_refl).
  cbv zeta. cbn [ends]. destruct Hu as [-> | ->]; reflexivity.
Qed.

Lemma generate_without_uri_witness :
  let s := {| prompt := "a cat"; isGenerating := false; hasKey := true;
              results := []; statusMessage := "" |} in
  let r := handleGenerate "K" 7 (not_done [] ++ [operation true None]) s in
  blank (prompt s) = false /\ hasKey (state r) = true /\
  calls r = [ generateVideos "a cat"; console_error;
              alert "Error generating video: No video URI returned" ].
Proof.
  cbv zeta. split; [reflexivity|].
  rewrite (generate_without_uri "K" 7 None [] []
             {| prompt := "a cat"; isGenerating := false; hasKey := true;
                results := []; statusMessage := "" |}
             eq_refl eq_refl (or_introl eq_refl)).
  repeat split.
Defined.

(** X17 (whatever the service replies).  With a blank prompt, or while a
    generation is under way, [handleGenerate] does nothing at all.
    Otherwise it asks for the generation exactly once, then only polls, and
    keeps the prompt; it never turns [hasKey] on.  When it returns, the
    generating flag is off, the status is cleared, at most one result was
    added (in front, with the prompt of the request), and it logged and
    alerted once or not at all.  While no decisive reply has come, the flag
    stays on, and neither the results nor [hasKey] have changed. *)
Theorem generate_settles (API_KEY : string) (now : Z)
    (replies : list Reply) (s : State) :
  let r := handleGenerate API_KEY now replies s in
  if blank (prompt s) || isGenerating s then
    r = {| state := s; calls := []; shown := []; settled := true |}
  else
    prompt (state r) = prompt s /\
    (hasKey (state r) = hasKey s \/ hasKey (state r) = false) /\
    (exists polls tail,
       calls r = (generateVideos (prompt s)
                  :: repeat getVideosOperation polls ++ tail)%list /\
       if settled r
       then tail = [] \/ exists message, tail = [console_error; alert message]
       else tail = []) /\
    if settled r then
      isGenerating (state r) = false /\ statusMessage (state r) = "" /\
      last (shown r) "-" = "" /\
      (results (state r) = results s \/
       exists v, results (state r) = v :: results s /\
                 Types.prompt v = prompt s /\
                 Types.status v = Types.completed)
    else
      isGenerating (state r) = true /\ results (state r) = results s /\
      hasKey (state r) = hasKey s.
Proof.
  cbv zeta. unfold handleGenerate.
  destruct (blank (prompt s) || isGenerating s); [reflexivity|].
  assert (Hcaught : forall error polls messages,
    let r := caught error s
               (generateVideos (prompt s) :: repeat getVideosOperation polls)
               ("Initializing Veo engine..." :: messages) in
    prompt (state r) = prompt s /\
    (hasKey (state r) = hasKey s \/ hasKey (state r) = false) /\
    (exists polls tail,
       calls r = (generateVideos (prompt s)
                  :: repeat getVideosOperation polls ++ tail)%list /\
       if settled r
       then tail = [] \/ exists message, tail = [console_error; alert message]
       else tail = []) /\
    isGenerating (state r) = false /\ statusMessage (state r) = "" /\
    last (shown r) "-" = "" /\
    (results (state r) = results s \/
     exists v, results (state r) = v :: results s /\
               Types.prompt v = prompt s /\
               Types.status v = Types.completed)).
  { intros error polls messages. cbv zeta. unfold caught.
    cbn [state calls shown settled prompt hasKey isGenerating statusMessage
         results].
    split; [reflexivity|]. split.
    { destruct error as [message|]; [|left; reflexivity].
      destruct (includes _ message); [right|left]; reflexivity. }
    split.
    { exists polls. eexists. split; [reflexivity|].
      right. eexists. reflexivity. }
    split; [reflexivity|]. split; [reflexivity|].
    split; [|left; reflexivity].
    change ("Initializing Veo engine..." :: messages)
      with (["Initializing Veo engine..."] ++ messages)%list.
    rewrite <- app_assoc, app_assoc. apply last_last. }
  destruct replies as [|[error|done uri] rest].
  - cbn. split; [reflexivity|]. split; [left; reflexivity|].
    split; [|repeat split].
    exists 0%nat, []. split; reflexivity.
  - apply (Hcaught error 0%nat []).
  - destruct (poll 0 done uri rest) as [[messages polls] result].
    destruct result as [downloadLink|error|].
    + destruct (truthy downloadLink).
      * cbn [state calls shown settled prompt hasKey isGenerating
             statusMessage results app].
        split; [reflexivity|]. split; [left; reflexivity|].
        split.
        { exists polls, []. rewrite app_nil_r. split; [reflexivity|].
          left. reflexivity. }
        split; [reflexivity|]. split; [reflexivity|]. split.
        { change ("Initializing Veo engine..." :: messages ++ [""])%list
            with (("Initializing Veo engine..." :: messages) ++ [""])%list.
          apply last_last. }
        right. eexists. repeat split.
      * apply (Hcaught (Some "No video URI returned") polls messages).
    + apply (Hcaught error polls messages).
    + cbn [state calls shown settled prompt hasKey isGenerating
           statusMessage results app set_generating].
      split; [reflexivity|]. split; [left; reflexivity|].
      split; [|repeat split].
      exists polls, []. rewrite app_nil_r. split; reflexivity.
Qed.

End VideoFacts.

(** ** The cursor, also across the [await] of a message handler *)

(** [onmessage] is its part before the [await] followed, with nothing in
    between, by its part after it. *)
Lemma onmessage_split (d : string -> option AudioBuffer) (now : Q)
    (message : LiveServerMessage) (w : World) :
  onmessage d now message w =
  bind (onmessage_begin now message) (onmessage_resume d message) w.
Proof.
  rewrite onmessage_stages. unfold onmessage_begin, onmessage_resume, bind.
  destruct (base64Audio_cases message w) as [E|[audio E]]; rewrite E;
    [reflexivity|].
  destruct audio as [base64|]; [|reflexivity].
  destruct (truthy base64); reflexivity.
Qed.






